(** * Reliable data transfer: stop-and-wait, go-back-N and selective repeat

    A shallow embedding of [src/main.py].  Python objects that are shared
    and mutated in place (the [Packet] instances, whose [checksum] the
    channel increments) live in a heap indexed by object id.  Timers
    ([threading.Timer]) are objects too: starting one adds it to the pool of
    live timers, [cancel] removes it, and an event of the run fires one.
    Delayed deliveries of the channel wait in a pool of their own.  Events
    are processed one at a time, each handler running to completion, which
    is the serialisation the design asks for.  The random draws of the
    channel are an oracle [chan : nat -> decision] indexed by the number of
    [transmit] calls made so far.  The mutually recursive calls
    (send -> transmit -> receive -> ack handler -> send) carry a fuel
    argument; running out of it is reported as [OutOfFuel]. *)

From stdpp Require Import base gmap list strings pretty sorting.
From Stdlib Require Import ZArith Lia.

Open Scope Z_scope.

(** ** Packets *)

Inductive PacketType := DATA | ACK.

Definition PacketType_eqb (a b : PacketType) : bool :=
  match a, b with DATA, DATA | ACK, ACK => true | _, _ => false end.

Record Packet := mkPacketRaw {
  seq : Z;
  payload : option string;
  type : PacketType;
  checksum : Z
}.

(** [f"{x}"] for the three fields: [str] of a Python [int], of the payload
    ([None] or a string) and of the enum member. *)
Definition str_payload (p : option string) : string :=
  match p with None => "None" | Some s => s end.

Definition str_type (t : PacketType) : string :=
  match t with DATA => "PacketType.DATA" | ACK => "PacketType.ACK" end.

(** [sum(data)] over the bytes of the encoded string; the strings the code
    builds ("DATA_<n>", decimal numbers, enum names) are ASCII, so their
    UTF-8 bytes are the character codes. *)
Fixpoint byte_sum (s : string) : Z :=
  match s with
  | EmptyString => 0
  | String c s' => Z.of_nat (Ascii.nat_of_ascii c) + byte_sum s'
  end.

(** [Packet._compute_checksum] *)
Definition _compute_checksum (sq : Z) (pl : option string) (t : PacketType) : Z :=
  byte_sum (pretty sq +:+ str_payload pl +:+ str_type t) mod 256.

(** [Packet.__init__] *)
Definition mkPacket (sq : Z) (pl : option string) (t : PacketType) : Packet :=
  {| seq := sq; payload := pl; type := t; checksum := _compute_checksum sq pl t |}.

(** [Packet.is_corrupt] *)
Definition is_corrupt (p : Packet) : bool :=
  negb (checksum p =? _compute_checksum (seq p) (payload p) (type p)).

Definition set_checksum (c : Z) (p : Packet) : Packet :=
  {| seq := seq p; payload := payload p; type := type p; checksum := c |}.

(** The corruption step of [UnreliableChannel.transmit]. *)
Definition corrupt (p : Packet) : Packet :=
  set_checksum ((checksum p + 1) mod 256) p.

(** ** The world: heap, timers, delayed deliveries, trace *)

(** Observable actions, in the order they happen. *)
Inductive action :=
  | ATransmit (obj : nat) (p : Packet)   (* a packet object handed to the channel *)
  | AStartTimer (arg : Z)                (* [_start_timer] *)
  | ACancelTimer (arg : Z)               (* [_stop_timer] cancelling a timer *)
  | ASendCall.                           (* entry into [send] *)

Inductive exn := AttributeError | KeyError | IndexError | OutOfFuel.

Record world (E : Type) := mkWorld {
  eng : E;                          (* the engine object *)
  heap : list Packet;               (* packet objects, by id *)
  live_timers : list (nat * Z);     (* started, not cancelled, not fired *)
  next_timer : nat;
  delayed : list nat;               (* packet objects awaiting delayed delivery *)
  coin : nat;                       (* transmit calls so far *)
  trace : list action
}.
Arguments mkWorld {E}.
Arguments eng {E}. Arguments heap {E}. Arguments live_timers {E}.
Arguments next_timer {E}. Arguments delayed {E}. Arguments coin {E}.
Arguments trace {E}.

Definition init_world {E} (e : E) : world E := mkWorld e [] [] 0 [] 0 [].

Definition set_eng {E} (e : E) (w : world E) : world E :=
  mkWorld e (heap w) (live_timers w) (next_timer w) (delayed w) (coin w) (trace w).
Definition set_heap {E} (h : list Packet) (w : world E) : world E :=
  mkWorld (eng w) h (live_timers w) (next_timer w) (delayed w) (coin w) (trace w).
Definition set_timers {E} (lt : list (nat * Z)) (nt : nat) (w : world E) : world E :=
  mkWorld (eng w) (heap w) lt nt (delayed w) (coin w) (trace w).
Definition set_delayed {E} (d : list nat) (w : world E) : world E :=
  mkWorld (eng w) (heap w) (live_timers w) (next_timer w) d (coin w) (trace w).
Definition set_coin {E} (c : nat) (w : world E) : world E :=
  mkWorld (eng w) (heap w) (live_timers w) (next_timer w) (delayed w) c (trace w).
Definition log {E} (a : action) (w : world E) : world E :=
  mkWorld (eng w) (heap w) (live_timers w) (next_timer w) (delayed w) (coin w)
    (trace w ++ [a]).

(** ** A state and exception monad.  A Python exception keeps the
    mutations made before it. *)

Inductive outcome (S A : Type) := Ok (a : A) (s : S) | Raise (e : exn) (s : S).
Arguments Ok {S A}. Arguments Raise {S A}.

Definition M (E A : Type) := world E -> outcome (world E) A.

Definition ret {E A} (a : A) : M E A := fun w => Ok a w.
Definition bind {E A B} (m : M E A) (k : A -> M E B) : M E B :=
  fun w => match m w with Ok a w' => k a w' | Raise e w' => Raise e w' end.
Definition raise {E A} (e : exn) : M E A := fun w => Raise e w.
Definition get {E} : M E (world E) := fun w => Ok w w.
Definition modify {E} (f : world E -> world E) : M E unit := fun w => Ok tt (f w).
Definition get_eng {E} : M E E := fun w => Ok (eng w) w.
Definition put_eng {E} (e : E) : M E unit := modify (set_eng e).

Notation "x <- m ;; k" := (bind m (fun x => k))
  (at level 100, m at next level, k at level 200, right associativity).
Notation "m ;;; k" := (bind m (fun _ => k))
  (at level 100, k at level 200, right associativity).

(** Reading a packet object; every id the code holds is allocated. *)
Definition read (p : nat) {E} : M E Packet :=
  fun w => match heap w !! p with Some pk => Ok pk w | None => Raise AttributeError w end.

(** [Packet(...)]: allocate a new object. *)
Definition new_packet {E} (sq : Z) (pl : option string) (t : PacketType) : M E nat :=
  fun w => Ok (length (heap w)) (set_heap (heap w ++ [mkPacket sq pl t]) w).

(** [threading.Timer(timeout, handler, [arg]).start()]: a fresh timer
    object, returned by id. *)
Definition new_timer {E} (arg : Z) : M E nat :=
  fun w => Ok (next_timer w)
             (log (AStartTimer arg)
                (set_timers (live_timers w ++ [(next_timer w, arg)]) (S (next_timer w)) w)).

(** [timer.cancel()]: a no-op for a timer that already fired. *)
Definition cancel_timer {E} (tid : nat) (arg : Z) : M E unit :=
  modify (fun w => log (ACancelTimer arg)
    (set_timers (filter (fun t => fst t <> tid) (live_timers w)) (next_timer w) w)).

(** ** The channel *)

Record decision := { lost : bool; corrupted : bool; delay : bool }.

Definition no_fault : decision := {| lost := false; corrupted := false; delay := false |}.

(** [PROB_LOSS = PROB_CORRUPTION = PROB_DELAY = 0]: [random.random() < 0]
    never holds. *)
Definition lossless : nat -> decision := fun _ => no_fault.

(** ** The windowed engines: [GoBackNRDT] and [SelectiveRepeatRDT]

    Both classes have the same attributes; they differ in
    [pending_packets], a list in Go-Back-N and a dict keyed by sequence
    number in Selective-Repeat. *)
Record Win (P : Type) := mkWin {
  total_packets : Z;
  window_size : Z;
  seq_num : Z;
  ack_received : Z;
  timer : gmap Z nat;                 (* seq -> timer object *)
  buffer : gmap Z (option string);
  pending_packets : P;
  sent_count : Z;
  received_count : Z;
  running : bool
}.
Arguments mkWin {P}.
Arguments total_packets {P}. Arguments window_size {P}.
Arguments seq_num {P}. Arguments ack_received {P}.
Arguments timer {P}. Arguments buffer {P}.
Arguments pending_packets {P}. Arguments sent_count {P}.
Arguments received_count {P}. Arguments running {P}.

Abbreviation GBN := (Win (list nat)).
Abbreviation SR := (Win (gmap Z nat)).

Definition win_init {P} (empty : P) (total w : Z) : Win P :=
  mkWin total w 0 0 ∅ ∅ empty 0 0 false.

(** [GoBackNRDT.__init__] and [SelectiveRepeatRDT.__init__] *)
Definition gbn_init (total w : Z) : GBN := win_init [] total w.
Definition sr_init (total w : Z) : SR := win_init ∅ total w.

Section WinSetters.
Context {P : Type}.
Implicit Types e : Win P.
Definition set_seq_num (n : Z) e : Win P :=
  mkWin (total_packets e) (window_size e) n (ack_received e) (timer e) (buffer e)
    (pending_packets e) (sent_count e) (received_count e) (running e).
Definition set_ack_received (n : Z) e : Win P :=
  mkWin (total_packets e) (window_size e) (seq_num e) n (timer e) (buffer e)
    (pending_packets e) (sent_count e) (received_count e) (running e).
Definition set_timer (t : gmap Z nat) e : Win P :=
  mkWin (total_packets e) (window_size e) (seq_num e) (ack_received e) t (buffer e)
    (pending_packets e) (sent_count e) (received_count e) (running e).
Definition set_buffer (b : gmap Z (option string)) (rc : Z) e : Win P :=
  mkWin (total_packets e) (window_size e) (seq_num e) (ack_received e) (timer e) b
    (pending_packets e) (sent_count e) rc (running e).
Definition set_pending (pp : P) e : Win P :=
  mkWin (total_packets e) (window_size e) (seq_num e) (ack_received e) (timer e) (buffer e)
    pp (sent_count e) (received_count e) (running e).
Definition set_sent_count (n : Z) e : Win P :=
  mkWin (total_packets e) (window_size e) (seq_num e) (ack_received e) (timer e) (buffer e)
    (pending_packets e) n (received_count e) (running e).
Definition set_running (b : bool) e : Win P :=
  mkWin (total_packets e) (window_size e) (seq_num e) (ack_received e) (timer e) (buffer e)
    (pending_packets e) (sent_count e) (received_count e) b.

(** [_start_timer(seq_num)]: a timer already stored under [seq_num] is
    overwritten, not cancelled. *)
Definition win_start_timer (s : Z) : M (Win P) unit :=
  tid <- new_timer s ;; e <- get_eng ;; put_eng (set_timer (<[s := tid]> (timer e)) e).

(** [_stop_timer(seq_num)] *)
Definition win_stop_timer (s : Z) : M (Win P) unit :=
  e <- get_eng ;;
  match timer e !! s with
  | Some tid => cancel_timer tid s ;;; e' <- get_eng ;; put_eng (set_timer (delete s (timer e')) e')
  | None => ret tt
  end.

(** [_receiver], up to the [transmit] of the ACK (the same in both
    classes). *)
Definition win_receiver_update (pk : Packet) : M (Win P) nat :=
  e <- get_eng ;;
  if is_corrupt pk then new_packet (1 - seq_num e) None ACK
  else if seq pk =? ack_received e then
    put_eng (set_buffer (<[received_count e := payload pk]> (buffer e))
               (received_count e + 1) e) ;;;
    ack <- new_packet (seq pk) None ACK ;;
    e' <- get_eng ;; put_eng (set_ack_received (ack_received e' + 1) e') ;;;
    ret ack
  else new_packet (seq pk) None ACK.
End WinSetters.

Section Channel.
Variable chan : nat -> decision.

(** [UnreliableChannel.transmit packet receiver_callback].  The result is
    [Some p] when the callback must run now, synchronously, on [p]; a
    dropped packet gives [None], a delayed one is queued and gives [None]. *)
Definition transmit {E} (p : nat) : M E (option nat) :=
  fun w =>
    match heap w !! p with
    | None => Raise AttributeError w
    | Some pk =>
      let d := chan (coin w) in
      let w1 := log (ATransmit p pk) (set_coin (S (coin w)) w) in
      if lost d then Ok None w1 else
      let w2 := if corrupted d then set_heap (<[p := corrupt pk]> (heap w1)) w1 else w1 in
      if delay d then Ok None (set_delayed (delayed w2 ++ [p]) w2)
      else Ok (Some p) w2
    end.


(** The callback runs now on a synchronous delivery. *)
Definition sync {E} (k : nat -> M E unit) (r : option nat) : M E unit :=
  match r with Some q => k q | None => ret tt end.

(** ** rdt 3.0: [StopAndWaitRDT] *)

(** [channel] is the section's oracle and [timeout] only sets when a timer
    fires, which the events of a run decide. *)
Record SW := mkSW {
  sw_total_packets : Z;
  sw_seq_num : Z;
  sw_timer : option nat;
  sw_buffer : gmap Z (option string);
  sw_sent_count : Z;
  sw_received_count : Z;
  sw_pending_packet : option nat;
  sw_running : bool
}.

(** [StopAndWaitRDT.__init__] *)
Definition sw_init (total : Z) : SW :=
  {| sw_total_packets := total; sw_seq_num := 0; sw_timer := None; sw_buffer := ∅;
     sw_sent_count := 0; sw_received_count := 0; sw_pending_packet := None;
     sw_running := false |}.

Definition sw_set_seq_num (n : Z) (e : SW) : SW :=
  mkSW (sw_total_packets e) n (sw_timer e) (sw_buffer e) (sw_sent_count e)
    (sw_received_count e) (sw_pending_packet e) (sw_running e).
Definition sw_set_timer (t : option nat) (e : SW) : SW :=
  mkSW (sw_total_packets e) (sw_seq_num e) t (sw_buffer e) (sw_sent_count e)
    (sw_received_count e) (sw_pending_packet e) (sw_running e).
Definition sw_set_buffer (b : gmap Z (option string)) (rc : Z) (e : SW) : SW :=
  mkSW (sw_total_packets e) (sw_seq_num e) (sw_timer e) b (sw_sent_count e)
    rc (sw_pending_packet e) (sw_running e).
Definition sw_set_sent_count (n : Z) (e : SW) : SW :=
  mkSW (sw_total_packets e) (sw_seq_num e) (sw_timer e) (sw_buffer e) n
    (sw_received_count e) (sw_pending_packet e) (sw_running e).
Definition sw_set_pending (p : option nat) (e : SW) : SW :=
  mkSW (sw_total_packets e) (sw_seq_num e) (sw_timer e) (sw_buffer e) (sw_sent_count e)
    (sw_received_count e) p (sw_running e).
Definition sw_set_running (b : bool) (e : SW) : SW :=
  mkSW (sw_total_packets e) (sw_seq_num e) (sw_timer e) (sw_buffer e) (sw_sent_count e)
    (sw_received_count e) (sw_pending_packet e) b.

(** [StopAndWaitRDT._start_timer]: the previous timer object is not
    cancelled, only forgotten. *)
Definition sw_start_timer : M SW unit :=
  tid <- new_timer 0 ;; e <- get_eng ;; put_eng (sw_set_timer (Some tid) e).

(** [StopAndWaitRDT._stop_timer] *)
Definition sw_stop_timer : M SW unit :=
  e <- get_eng ;;
  match sw_timer e with
  | Some tid => cancel_timer tid 0 ;;; e' <- get_eng ;; put_eng (sw_set_timer None e')
  | None => ret tt
  end.

(** [StopAndWaitRDT._receiver], up to the [transmit] of the ACK: the
    update of the engine and the ACK object it builds. *)
Definition sw_receiver_update (pk : Packet) : M SW nat :=
  e <- get_eng ;;
  if is_corrupt pk then new_packet (1 - sw_seq_num e) None ACK
  else if seq pk =? sw_seq_num e then
    put_eng (sw_set_buffer (<[sw_received_count e := payload pk]> (sw_buffer e))
               (sw_received_count e + 1) e) ;;;
    ack <- new_packet (seq pk) None ACK ;;
    e' <- get_eng ;; put_eng (sw_set_seq_num (1 - sw_seq_num e') e') ;;;
    ret ack
  else new_packet (seq pk) None ACK.

Fixpoint sw_send (fuel : nat) : M SW unit :=
  match fuel with
  | O => raise OutOfFuel
  | S fuel' =>
    modify (log ASendCall) ;;;
    e <- get_eng ;;
    if sw_total_packets e <=? sw_sent_count e then put_eng (sw_set_running false e)
    else
      p <- new_packet (sw_seq_num e) (Some ("DATA_" +:+ pretty (sw_sent_count e))) DATA ;;
      e1 <- get_eng ;; put_eng (sw_set_pending (Some p) e1) ;;;
      r <- transmit p ;;
      sync (sw_receive fuel') r ;;;
      sw_start_timer
  end
with sw_receive (fuel : nat) (p : nat) : M SW unit :=
  match fuel with
  | O => raise OutOfFuel
  | S fuel' =>
    pk <- read p ;;
    match type pk with
    | DATA => sw_receiver fuel' p
    | ACK => sw_ack_handler fuel' p
    end
  end
with sw_receiver (fuel : nat) (p : nat) : M SW unit :=
  match fuel with
  | O => raise OutOfFuel
  | S fuel' =>
    pk <- read p ;;
    ack <- sw_receiver_update pk ;;
    r <- transmit ack ;;
    sync (sw_receive fuel') r
  end
with sw_ack_handler (fuel : nat) (p : nat) : M SW unit :=
  match fuel with
  | O => raise OutOfFuel
  | S fuel' =>
    ack <- read p ;;
    if is_corrupt ack then ret tt
    else
      e <- get_eng ;;
      match sw_pending_packet e with
      | None => raise AttributeError      (* None.seq *)
      | Some pp =>
        ppk <- read pp ;;
        if seq ack =? seq ppk then
          sw_stop_timer ;;;
          e1 <- get_eng ;; put_eng (sw_set_sent_count (sw_sent_count e1 + 1) e1) ;;;
          sw_send fuel'
        else ret tt
      end
  end.

(** [StopAndWaitRDT._on_timeout] *)
Definition sw_on_timeout (fuel : nat) : M SW unit :=
  e <- get_eng ;;
  match sw_pending_packet e with
  | None => raise AttributeError
  | Some p => r <- transmit p ;; sync (sw_receive fuel) r ;;; sw_start_timer
  end.

(** [StopAndWaitRDT.start] *)
Definition sw_start (fuel : nat) : M SW unit :=
  e <- get_eng ;; put_eng (sw_set_running true e) ;;; sw_send fuel.

(** [get_data]: [[self.buffer[i] for i in sorted(self.buffer)]] *)
Definition get_data (b : gmap Z (option string)) : list (option string) :=
  omap (fun k => b !! k) (merge_sort Z.le (map fst (map_to_list b))).

(** ** Events of a run *)

Inductive event :=
  | EvTimer (tid : nat)      (* the timer object [tid] expires *)
  | EvDeliver (k : nat).     (* the [k]-th pending delayed delivery happens *)

(** A timer that was cancelled or already fired does nothing. *)
Definition fire_timer {E} (tid : nat) : M E (option Z) :=
  fun w =>
    match list_find (fun t => fst t = tid) (live_timers w) with
    | Some (i, (_, a)) =>
        Ok (Some a) (set_timers (delete i (live_timers w)) (next_timer w) w)
    | None => Ok None w
    end.

Definition take_delayed {E} (k : nat) : M E (option nat) :=
  fun w =>
    match delayed w !! k with
    | Some p => Ok (Some p) (set_delayed (delete k (delayed w)) w)
    | None => Ok None w
    end.

(** An exception ends the thread that raised it; the mutations it made
    stay, and the other threads go on. *)
Definition exec {E} (m : M E unit) (w : world E) : world E :=
  match m w with Ok _ w' => w' | Raise _ w' => w' end.

Definition sw_step (fuel : nat) (ev : event) : M SW unit :=
  match ev with
  | EvTimer tid => a <- fire_timer tid ;;
      match a with Some _ => sw_on_timeout fuel | None => ret tt end
  | EvDeliver k => o <- take_delayed k ;; sync (sw_receive fuel) o
  end.

Definition sw_run (fuel : nat) (evs : list event) (w : world SW) : world SW :=
  fold_left (fun w ev => exec (sw_step fuel ev) w) evs w.

(** [range(a, b)] *)
Definition py_range (a b : Z) : list Z :=
  map (fun k => a + Z.of_nat k) (List.seq 0 (Z.to_nat (b - a))).

(** ** [GoBackNRDT] *)

(** The loop [for i in range(self.window_size)] of [send]; [receive]
    is [self.receive]. *)
Fixpoint gbn_send_loop (receive : nat -> M GBN unit) (is : list Z) : M GBN unit :=
  match is with
  | [] => ret tt
  | i :: is' =>
    e0 <- get_eng ;;
    (if sent_count e0 + i <? total_packets e0 then
       p <- new_packet (seq_num e0 + i)
              (Some ("DATA_" +:+ pretty (sent_count e0 + i))) DATA ;;
       e1 <- get_eng ;; put_eng (set_pending (pending_packets e1 ++ [p]) e1) ;;;
       r <- transmit p ;;
       sync receive r ;;;
       e2 <- get_eng ;;
       win_start_timer (seq_num e2 + i)
     else ret tt) ;;;
    gbn_send_loop receive is'
  end.

Fixpoint gbn_send (fuel : nat) : M GBN unit :=
  match fuel with
  | O => raise OutOfFuel
  | S fuel' =>
    modify (log ASendCall) ;;;
    e <- get_eng ;;
    if total_packets e <=? sent_count e then put_eng (set_running false e)
    else
      gbn_send_loop (gbn_receive fuel') (py_range 0 (window_size e)) ;;;
      e3 <- get_eng ;; put_eng (set_seq_num (seq_num e3 + window_size e3) e3)
  end
with gbn_receive (fuel : nat) (p : nat) : M GBN unit :=
  match fuel with
  | O => raise OutOfFuel
  | S fuel' =>
    pk <- read p ;;
    match type pk with
    | DATA => gbn_receiver fuel' p
    | ACK => gbn_ack_handler fuel' p
    end
  end
with gbn_receiver (fuel : nat) (p : nat) : M GBN unit :=
  match fuel with
  | O => raise OutOfFuel
  | S fuel' =>
    pk <- read p ;;
    ack <- win_receiver_update pk ;;
    r <- transmit ack ;;
    sync (gbn_receive fuel') r
  end
with gbn_ack_handler (fuel : nat) (p : nat) : M GBN unit :=
  match fuel with
  | O => raise OutOfFuel
  | S fuel' =>
    ack <- read p ;;
    if is_corrupt ack then ret tt
    else
      e <- get_eng ;;
      if (seq_num e - window_size e <=? seq ack) && (seq ack <? seq_num e) then
        win_stop_timer (seq ack) ;;;
        e1 <- get_eng ;; put_eng (set_sent_count (sent_count e1 + 1) e1) ;;;
        e2 <- get_eng ;;
        if sent_count e2 <? total_packets e2 then gbn_send fuel' else ret tt
      else ret tt
  end.

(** [GoBackNRDT._on_timeout(seq_num)]: the argument is not used. *)
Definition gbn_on_timeout (fuel : nat) (s : Z) : M GBN unit :=
  e <- get_eng ;;
  (fix loop (is : list Z) : M GBN unit :=
     match is with
     | [] => ret tt
     | i :: is' =>
       e0 <- get_eng ;;
       match pending_packets e0 !! Z.to_nat (i mod window_size e0) with
       | None => raise IndexError
       | Some p =>
         r <- transmit p ;; sync (gbn_receive fuel) r ;;;
         win_start_timer i ;;; loop is'
       end
     end)
    (py_range (seq_num e) (Z.min (seq_num e + window_size e) (total_packets e))).

(** [GoBackNRDT.start] *)
Definition gbn_start (fuel : nat) : M GBN unit :=
  e <- get_eng ;; put_eng (set_running true e) ;;; gbn_send fuel.

Definition gbn_step (fuel : nat) (ev : event) : M GBN unit :=
  match ev with
  | EvTimer tid => a <- fire_timer tid ;;
      match a with Some s => gbn_on_timeout fuel s | None => ret tt end
  | EvDeliver k => o <- take_delayed k ;; sync (gbn_receive fuel) o
  end.

Definition gbn_run (fuel : nat) (evs : list event) (w : world GBN) : world GBN :=
  fold_left (fun w ev => exec (gbn_step fuel ev) w) evs w.

(** ** [SelectiveRepeatRDT] *)

(** The loop [for i in range(self.window_size)] of [send]; [receive]
    is [self.receive]. *)
Fixpoint sr_send_loop (receive : nat -> M SR unit) (is : list Z) : M SR unit :=
  match is with
  | [] => ret tt
  | i :: is' =>
    e0 <- get_eng ;;
    (if sent_count e0 + i <? total_packets e0 then
       p <- new_packet (seq_num e0 + i)
              (Some ("DATA_" +:+ pretty (sent_count e0 + i))) DATA ;;
       e1 <- get_eng ;;
       put_eng (set_pending (<[seq_num e1 + i := p]> (pending_packets e1)) e1) ;;;
       r <- transmit p ;;
       sync receive r ;;;
       e2 <- get_eng ;;
       win_start_timer (seq_num e2 + i)
     else ret tt) ;;;
    sr_send_loop receive is'
  end.

Fixpoint sr_send (fuel : nat) : M SR unit :=
  match fuel with
  | O => raise OutOfFuel
  | S fuel' =>
    modify (log ASendCall) ;;;
    e <- get_eng ;;
    if total_packets e <=? sent_count e then put_eng (set_running false e)
    else
      sr_send_loop (sr_receive fuel') (py_range 0 (window_size e)) ;;;
      e3 <- get_eng ;; put_eng (set_seq_num (seq_num e3 + window_size e3) e3)
  end
with sr_receive (fuel : nat) (p : nat) : M SR unit :=
  match fuel with
  | O => raise OutOfFuel
  | S fuel' =>
    pk <- read p ;;
    match type pk with
    | DATA => sr_receiver fuel' p
    | ACK => sr_ack_handler fuel' p
    end
  end
with sr_receiver (fuel : nat) (p : nat) : M SR unit :=
  match fuel with
  | O => raise OutOfFuel
  | S fuel' =>
    pk <- read p ;;
    ack <- win_receiver_update pk ;;
    r <- transmit ack ;;
    sync (sr_receive fuel') r
  end
with sr_ack_handler (fuel : nat) (p : nat) : M SR unit :=
  match fuel with
  | O => raise OutOfFuel
  | S fuel' =>
    ack <- read p ;;
    if is_corrupt ack then ret tt
    else
      e <- get_eng ;;
      match pending_packets e !! seq ack with
      | Some _ =>
        win_stop_timer (seq ack) ;;;
        e1 <- get_eng ;; put_eng (set_sent_count (sent_count e1 + 1) e1) ;;;
        e2 <- get_eng ;;
        if sent_count e2 <? total_packets e2 then sr_send fuel' else ret tt
      | None => ret tt
      end
  end.

(** [SelectiveRepeatRDT._on_timeout(seq_num)] *)
Definition sr_on_timeout (fuel : nat) (s : Z) : M SR unit :=
  e <- get_eng ;;
  match pending_packets e !! s with
  | None => raise KeyError
  | Some p => r <- transmit p ;; sync (sr_receive fuel) r ;;; win_start_timer s
  end.

(** [SelectiveRepeatRDT.start] *)
Definition sr_start (fuel : nat) : M SR unit :=
  e <- get_eng ;; put_eng (set_running true e) ;;; sr_send fuel.

Definition sr_step (fuel : nat) (ev : event) : M SR unit :=
  match ev with
  | EvTimer tid => a <- fire_timer tid ;;
      match a with Some s => sr_on_timeout fuel s | None => ret tt end
  | EvDeliver k => o <- take_delayed k ;; sync (sr_receive fuel) o
  end.

Definition sr_run (fuel : nat) (evs : list event) (w : world SR) : world SR :=
  fold_left (fun w ev => exec (sr_step fuel ev) w) evs w.

End Channel.

(** A channel that drops the [n]-th transmission and delivers every other
    one at once and intact. *)
Definition drop_at (n : nat) : nat -> decision :=
  fun k => if Nat.eqb k n then {| lost := true; corrupted := false; delay := false |}
           else no_fault.

(** A channel that corrupts every transmission and delivers it at once. *)
Definition corrupt_all : nat -> decision :=
  fun _ => {| lost := false; corrupted := true; delay := false |}.

(** The world after [start()] on a fresh engine. *)
Definition started {E} (m : M E unit) (e : E) : world E := exec m (init_world e).

(** * Properties *)

(** ** Packets and the channel *)

Lemma compute_checksum_range sq pl t : 0 <= _compute_checksum sq pl t < 256.
Proof. unfold _compute_checksum. apply Z.mod_pos_bound. lia. Qed.

Lemma is_corrupt_set_checksum sq pl t c :
  is_corrupt (set_checksum c (mkPacket sq pl t)) = negb (c =? _compute_checksum sq pl t).
Proof. reflexivity. Qed.

Lemma is_corrupt_mkPacket sq pl t : is_corrupt (mkPacket sq pl t) = false.
Proof. unfold is_corrupt. simpl. rewrite Z.eqb_refl. reflexivity. Qed.

Lemma succ_mod_256_neq c : 0 <= c < 256 -> (c + 1) mod 256 <> c.
Proof.
  intros Hc. destruct (Z.eq_dec c 255) as [->|Hne].
  - cbv. discriminate.
  - rewrite Z.mod_small; lia.
Qed.

(** A packet as built by [Packet(...)] is never reported corrupt; a
    packet whose stored checksum differs from the value computed at
    construction (its other fields untouched) is always reported corrupt,
    in particular after the channel's step [(checksum + 1) % 256]; and the
    packet object the channel corrupts in [transmit] is corrupt when it
    reaches the receiving side. *)
Theorem packet_integrity_detection :
  (forall sq pl t, is_corrupt (mkPacket sq pl t) = false) /\
  (forall sq pl t c, c <> checksum (mkPacket sq pl t) ->
     is_corrupt (set_checksum c (mkPacket sq pl t)) = true) /\
  (forall sq pl t, is_corrupt (corrupt (mkPacket sq pl t)) = true) /\
  (forall chan E (w : world E) p sq pl t r w',
     heap w !! p = Some (mkPacket sq pl t) ->
     lost (chan (coin w)) = false -> corrupted (chan (coin w)) = true ->
     transmit chan p w = Ok r w' ->
     exists pk, heap w' !! p = Some pk /\ is_corrupt pk = true).
Proof.
  split; [|split; [|split]].
  - exact is_corrupt_mkPacket.
  - intros sq pl t c Hc. rewrite is_corrupt_set_checksum.
    simpl in Hc. apply Z.eqb_neq in Hc. rewrite Hc. reflexivity.
  - intros sq pl t. unfold corrupt. rewrite is_corrupt_set_checksum.
    simpl. pose proof (succ_mod_256_neq _ (compute_checksum_range sq pl t)).
    apply Z.eqb_neq in H. rewrite H. reflexivity.
  - intros chan E w p sq pl t r w' Hp Hl Hc Ht. unfold transmit in Ht.
    rewrite Hp, Hl, Hc in Ht.
    assert (Hlt : (p < length (heap w))%nat) by (apply lookup_lt_Some in Hp; exact Hp).
    exists (corrupt (mkPacket sq pl t)).
    destruct (delay (chan (coin w))); injection Ht as <- <-; simpl;
      (rewrite list_lookup_insert_eq; [|exact Hlt]);
      split; try reflexivity;
      unfold corrupt; rewrite is_corrupt_set_checksum; simpl;
      pose proof (succ_mod_256_neq _ (compute_checksum_range sq pl t)) as H;
      apply Z.eqb_neq in H; rewrite H; reflexivity.
Qed.

(** C9.  [transmit] changes nothing but the [checksum] of the packet object
    it is given: the heap afterwards is the heap before with that object's
    checksum kept or replaced by [(checksum + 1) % 256]; [seq], [payload],
    [type] and all other objects stay, the engine is untouched, and the
    callback, if it runs now, gets that same object.  A corrupted packet
    that is not lost is still delivered. *)
Theorem transmit_only_checksum chan E (w : world E) p pk :
  heap w !! p = Some pk ->
  exists r w',
    transmit chan p w = Ok r w' /\
    (heap w' = heap w \/ heap w' = <[p := set_checksum ((checksum pk + 1) mod 256) pk]> (heap w)) /\
    (r = None \/ r = Some p) /\
    eng w' = eng w /\
    (lost (chan (coin w)) = false -> delay (chan (coin w)) = false -> r = Some p).
Proof.
  intros Hp. unfold transmit. rewrite Hp.
  destruct (lost (chan (coin w))) eqn:Hl.
  - do 2 eexists. split; [reflexivity|]. simpl.
    split; [left; reflexivity|]. split; [left; reflexivity|].
    split; [reflexivity|]. discriminate.
  - destruct (corrupted (chan (coin w))) eqn:Hc, (delay (chan (coin w))) eqn:Hd;
      do 2 eexists; (split; [reflexivity|]); simpl;
      repeat split; try (left; reflexivity); try (right; reflexivity);
      try discriminate; intros; reflexivity.
Qed.

(** ** Stop-and-wait handlers *)

(** What [_receiver] does after building the ACK object [ack] with the
    engine updated to [e']: [self.channel.transmit(ack, self.receive)]. *)
Definition sw_reply chan (fuel : nat) (e' : SW) (ack : Packet) (w : world SW)
  : outcome (world SW) unit :=
  (r <- transmit chan (length (heap w)) ;; sync (sw_receive chan fuel) r)
    (set_heap (heap w ++ [ack]) (set_eng e' w)).

(** C6.  [_receiver] on a DATA packet object [p]: a corrupt packet is
    answered with an ACK for [1 - seq_num] and the engine is unchanged; a
    packet whose [seq] is the expected bit has its payload stored at
    [buffer[received_count]], [received_count] incremented and the bit
    flipped, and is answered with an ACK for its [seq]; any other packet is
    answered with an ACK for its own [seq], the engine unchanged.  In each
    case the new ACK object is what is handed to the channel next. *)
Theorem sw_receiver_three_cases chan f p pk (w : world SW) :
  heap w !! p = Some pk ->
  sw_receiver chan (S f) p w =
    (let e := eng w in
     if is_corrupt pk then sw_reply chan f e (mkPacket (1 - sw_seq_num e) None ACK) w
     else if seq pk =? sw_seq_num e then
       sw_reply chan f
         (sw_set_seq_num (1 - sw_seq_num e)
            (sw_set_buffer (<[sw_received_count e := payload pk]> (sw_buffer e))
               (sw_received_count e + 1) e))
         (mkPacket (seq pk) None ACK) w
     else sw_reply chan f e (mkPacket (seq pk) None ACK) w).
Proof.
  intros Hp. cbn -[transmit sw_receive].
  unfold bind at 1, read. rewrite Hp.
  unfold sw_reply, sw_receiver_update, bind, get_eng, put_eng, modify, new_packet, ret.
  destruct (is_corrupt pk); [reflexivity|].
  destruct (seq pk =? sw_seq_num (eng w)); reflexivity.
Qed.

(** The world after [self._stop_timer()] in [_ack_handler]: the timer
    object, if any, is cancelled and [self.timer] is [None]. *)
Definition sw_timer_cancelled (w : world SW) : world SW :=
  match sw_timer (eng w) with
  | Some tid =>
      set_eng (sw_set_timer None (eng w))
        (log (ACancelTimer 0)
           (set_timers (filter (fun t => fst t <> tid) (live_timers w)) (next_timer w) w))
  | None => w
  end.

(** ... followed by [self.sent_count += 1]. *)
Definition sw_advance (w : world SW) : world SW :=
  let w1 := sw_timer_cancelled w in
  set_eng (sw_set_sent_count (sw_sent_count (eng w1) + 1) (eng w1)) w1.

Lemma sw_ack_handler_unfold chan f p (w : world SW) :
  sw_ack_handler chan (S f) p w =
    match heap w !! p with
    | None => Raise AttributeError w
    | Some ack =>
      if is_corrupt ack then Ok tt w
      else match sw_pending_packet (eng w) with
           | None => Raise AttributeError w
           | Some pp =>
             match heap w !! pp with
             | None => Raise AttributeError w
             | Some ppk => if seq ack =? seq ppk then sw_send chan f (sw_advance w) else Ok tt w
             end
           end
    end.
Proof.
  cbn -[sw_send]. unfold bind at 1, read.
  destruct (heap w !! p) as [ack|]; [|reflexivity].
  unfold bind at 1, get_eng, ret. destruct (is_corrupt ack); [reflexivity|].
  destruct (sw_pending_packet (eng w)) as [pp|]; [|reflexivity].
  unfold bind at 1. destruct (heap w !! pp) as [ppk|]; [|reflexivity].
  destruct (seq ack =? seq ppk); [|reflexivity].
  unfold sw_advance, sw_timer_cancelled, sw_stop_timer, bind, get_eng, put_eng, modify,
    cancel_timer, ret.
  destruct (sw_timer (eng w)); reflexivity.
Qed.

(** C7.  [_ack_handler] with a pending data unit [pp]: a corrupt ACK
    leaves the whole world as it is; an ACK whose [seq] is the pending
    unit's cancels the timer, increments [sent_count] and calls [send]; any
    other ACK leaves the whole world as it is. *)
Theorem sw_ack_handler_cases chan f p ack pp ppk (w : world SW) :
  heap w !! p = Some ack ->
  sw_pending_packet (eng w) = Some pp ->
  heap w !! pp = Some ppk ->
  sw_ack_handler chan (S f) p w =
    (if is_corrupt ack then Ok tt w
     else if seq ack =? seq ppk then sw_send chan f (sw_advance w)
     else Ok tt w).
Proof.
  intros Hp Hpp Hppk. rewrite sw_ack_handler_unfold, Hp.
  destruct (is_corrupt ack); [reflexivity|]. rewrite Hpp, Hppk. reflexivity.
Qed.

(** C10.  A valid ACK handed to [receive] of a fresh [StopAndWaitRDT]
    (no [send] yet) raises [AttributeError] at [self.pending_packet.seq]
    and changes nothing; more generally any valid ACK raises there while
    [pending_packet] is [None]; once a unit is pending the handler either
    ignores the ACK or goes on to [send], and does not raise there. *)
Theorem sw_ack_without_pending_fails :
  (forall chan f total sq,
     let w := set_heap [mkPacket sq None ACK] (init_world (sw_init total)) in
     sw_receive chan (S (S f)) 0 w = Raise AttributeError w) /\
  (forall chan f p ack (w : world SW),
     sw_pending_packet (eng w) = None -> heap w !! p = Some ack ->
     type ack = ACK -> is_corrupt ack = false ->
     sw_receive chan (S (S f)) p w = Raise AttributeError w) /\
  (forall chan f p ack pp ppk (w : world SW),
     sw_pending_packet (eng w) = Some pp -> heap w !! p = Some ack -> heap w !! pp = Some ppk ->
     sw_ack_handler chan (S f) p w = Ok tt w \/
     sw_ack_handler chan (S f) p w = sw_send chan f (sw_advance w)).
Proof.
  assert (Hgen : forall chan f p ack (w : world SW),
     sw_pending_packet (eng w) = None -> heap w !! p = Some ack ->
     type ack = ACK -> is_corrupt ack = false ->
     sw_receive chan (S (S f)) p w = Raise AttributeError w).
  { intros chan f p ack w Hn Hp Ht Hc.
    cbn -[sw_ack_handler sw_receiver]. unfold bind at 1, read. rewrite Hp, Ht.
    rewrite sw_ack_handler_unfold, Hp, Hc, Hn. reflexivity. }
  split; [|split].
  - intros chan f total sq. apply (Hgen _ _ _ (mkPacket sq None ACK)); try reflexivity.
    apply is_corrupt_mkPacket.
  - exact Hgen.
  - intros chan f p ack pp ppk w Hpp Hp Hppk.
    rewrite sw_ack_handler_unfold, Hp.
    destruct (is_corrupt ack); [left; reflexivity|]. rewrite Hpp, Hppk.
    destruct (seq ack =? seq ppk); [right|left]; reflexivity.
Qed.

(** ** Runs on a lossless channel *)

Definition sw_lossless_5 : world SW := started (sw_start lossless 100) (sw_init 5).
Definition gbn_lossless_5_4 : world GBN := started (gbn_start lossless 100) (gbn_init 5 4).
Definition sr_lossless_2_1 : world SR := started (sr_start lossless 100) (sr_init 2 1).

(** C1.  On a lossless channel Stop-and-Wait delivers [DATA_0 .. DATA_4]
    for [total = 5], but Selective-Repeat with [total = 2],
    [window_size = 1] delivers only [DATA_0]: after [start()] the sender
    counts both units as sent and every later timeout (here the timer
    objects 0 to 3) leaves the buffer as it is.  Go-Back-N with
    [total = 5], [window_size = 4] delivers [DATA_0 .. DATA_3] during
    [start()] and, at the first timeout, [DATA_1 .. DATA_4] again under the
    new sequence numbers 4 to 7. *)
Theorem lossless_delivery_runs :
  get_data (sw_buffer (eng sw_lossless_5)) =
    [Some "DATA_0"; Some "DATA_1"; Some "DATA_2"; Some "DATA_3"; Some "DATA_4"] /\
  get_data (buffer (eng sr_lossless_2_1)) = [Some "DATA_0"] /\
  sent_count (eng sr_lossless_2_1) = 2 /\
  get_data (buffer (eng (sr_run lossless 100 [EvTimer 0; EvTimer 1; EvTimer 2; EvTimer 3]
                            sr_lossless_2_1))) = [Some "DATA_0"] /\
  get_data (buffer (eng gbn_lossless_5_4)) =
    [Some "DATA_0"; Some "DATA_1"; Some "DATA_2"; Some "DATA_3"] /\
  get_data (buffer (eng (gbn_run lossless 100 [EvTimer 0] gbn_lossless_5_4))) =
    [Some "DATA_0"; Some "DATA_1"; Some "DATA_2"; Some "DATA_3";
     Some "DATA_1"; Some "DATA_2"; Some "DATA_3"; Some "DATA_4"].
Proof. vm_compute. repeat split; reflexivity. Qed.

(** C2.  Go-Back-N, [total = 5], [window_size = 4], lossless channel:
    after [start()] and one timeout, the timer dict holds seven sequence
    numbers (1 to 7) whose ACK has not been accepted, eight live timer
    objects, and [pending_packets] has grown to eight units. *)
Theorem gbn_in_flight_after_timeout :
  let w := gbn_run lossless 100 [EvTimer 0] gbn_lossless_5_4 in
  window_size (eng w) = 4 /\
  map_to_list (timer (eng w)) <> [] /\
  dom (timer (eng w)) = list_to_set [1; 2; 3; 4; 5; 6; 7] /\
  size (timer (eng w)) = 7%nat /\
  length (live_timers w) = 8%nat /\
  length (pending_packets (eng w)) = 8%nat.
Proof. vm_compute. repeat split; try reflexivity; discriminate. Qed.

(** The Selective-Repeat run of C3: [total = 3], [window_size = 1], the
    third transmission is lost.  During [start()] the ACK for 0 is accepted
    once ([sent_count = 1]) and [seq_num] moves on to 2. *)
Definition sr_drop2 : world SR := started (sr_start (drop_at 2) 100) (sr_init 3 1).

(** C3.  In that state the timeout of the timer object 0 retransmits the
    unit stored under 0; the receiver answers it with a second valid ACK
    for 0, which the sender accepts again: it cancels the timer of 0, calls
    [send], which builds and transmits a new unit with sequence number 2,
    and [seq_num] moves from 2 to 3, [sent_count] from 1 to 3. *)
Theorem sr_duplicate_ack_resends :
  sent_count (eng sr_drop2) = 1 /\ seq_num (eng sr_drop2) = 2 /\
  pending_packets (eng sr_drop2) !! 0 = Some 2%nat /\
  exists w',
    sr_step (drop_at 2) 100 (EvTimer 0) sr_drop2 = Ok tt w' /\
    trace w' = trace sr_drop2 ++
      [ATransmit 2 (mkPacket 0 (Some "DATA_1") DATA);
       ATransmit 3 (mkPacket 0 None ACK);
       ACancelTimer 0; ASendCall;
       ATransmit 4 (mkPacket 2 (Some "DATA_2") DATA);
       ATransmit 5 (mkPacket 2 None ACK);
       AStartTimer 2; AStartTimer 0] /\
    seq_num (eng w') = 3 /\ sent_count (eng w') = 3.
Proof. vm_compute. repeat split; try reflexivity. eexists. repeat split; reflexivity. Qed.

(** The Go-Back-N run of C4: [total = 1], [window_size = 1], the first
    transmission (the only data unit) is lost. *)
Definition gbn_drop0 : world GBN := started (gbn_start (drop_at 0) 100) (gbn_init 1 1).

(** C4.  Unit 0 is in flight (its timer is stored, no ACK accepted); when
    its timer fires, [_on_timeout] ranges over [range(seq_num, ...)] with
    [seq_num = 1] and transmits nothing, arms no timer; no timer and no
    delivery is left, so the unit is never delivered. *)
Theorem gbn_timeout_retransmits_nothing :
  seq_num (eng gbn_drop0) = 1 /\ sent_count (eng gbn_drop0) = 0 /\
  timer (eng gbn_drop0) !! 0 = Some 0%nat /\
  pending_packets (eng gbn_drop0) = [0%nat] /\
  live_timers gbn_drop0 = [(0%nat, 0)] /\
  exists w',
    gbn_step (drop_at 0) 100 (EvTimer 0) gbn_drop0 = Ok tt w' /\
    trace w' = trace gbn_drop0 /\
    live_timers w' = [] /\ delayed w' = [] /\
    get_data (buffer (eng w')) = [].
Proof. vm_compute. repeat split; try reflexivity. eexists. repeat split; reflexivity. Qed.

(** ** Repeated corruption of one packet object *)

(** [StopAndWaitRDT(total=1)] after [start()] on a channel that corrupts
    every transmission. *)
Definition sw_corrupt_1 : world SW := started (sw_start corrupt_all 100) (sw_init 1).

(** The timers [0 .. n-1] expire one after the other. *)
Definition sw_timeouts (n : nat) : list event := map EvTimer (List.seq 0 n).

(** How many times the packet object [q] was handed to the channel. *)
Definition count_tx (q : nat) (tr : list action) : nat :=
  length (List.filter (fun a => match a with ATransmit q' _ => Nat.eqb q' q | _ => false end) tr).

(** C5.  The channel corrupts the sender's own packet object, and
    [_on_timeout] retransmits that object, so corruptions add up modulo 256.
    With [total = 1] on a channel that corrupts every transmission, nothing
    is accepted through 254 timeouts.  At the 255th timeout the object
    [DATA_0] is handed to the channel for the 256th time, already corrupt.
    The channel's step [(checksum + 1) % 256] then brings its checksum back
    to the computed value.  The receiver finds it not corrupt and accepts
    [DATA_0], although that transmission was corrupted like every other. *)
Theorem sw_corruption_wraps_undetected :
  let w0 := sw_run corrupt_all 100 (sw_timeouts 254) sw_corrupt_1 in
  let w := sw_run corrupt_all 100 [EvTimer 254] w0 in
  let sent := set_checksum 26 (mkPacket 0 (Some "DATA_0") DATA) in
  (sw_buffer (eng w0) = ∅) /\
  (corrupted (corrupt_all (coin w0)) = true) /\
  (nth_error (trace w) (length (trace w0)) = Some (ATransmit 0 sent)) /\
  (is_corrupt sent = true) /\
  (heap w !! 0%nat = Some (corrupt sent)) /\
  (is_corrupt (corrupt sent) = false) /\
  (count_tx 0 (trace w) = 256%nat) /\
  (get_data (sw_buffer (eng w)) = [Some "DATA_0"]).
Proof. vm_compute. repeat split; reflexivity. Qed.

(** ** Witnesses: the hypotheses of the theorems above hold at concrete
    inputs *)

Definition ack0_world : world unit := set_heap [mkPacket 0 None ACK] (init_world tt).

Lemma packet_integrity_detection_witness :
  is_corrupt (set_checksum 5 (mkPacket 0 None ACK)) = true /\
  exists pk, heap (exec (fun w => match transmit corrupt_all 0 w with
                                  | Ok _ w' => Ok tt w' | Raise e w' => Raise e w' end)
                      ack0_world) !! 0%nat = Some pk /\ is_corrupt pk = true.
Proof.
  split.
  - apply (proj1 (proj2 packet_integrity_detection) 0 None ACK 5). vm_compute. discriminate.
  - unfold exec. destruct (transmit corrupt_all 0 ack0_world) as [r w'|e w'] eqn:Ht.
    + apply (proj2 (proj2 (proj2 packet_integrity_detection)) corrupt_all unit
               ack0_world 0%nat 0 None ACK r w'); try reflexivity. exact Ht.
    + vm_compute in Ht. discriminate.
Defined.

Lemma transmit_only_checksum_witness :
  heap ack0_world !! 0%nat = Some (mkPacket 0 None ACK) /\
  exists r w', transmit lossless 0 ack0_world = Ok r w' /\ (r = None \/ r = Some 0%nat).
Proof.
  split; [reflexivity|].
  destruct (transmit_only_checksum lossless unit ack0_world 0 (mkPacket 0 None ACK) eq_refl)
    as (r & w' & Ht & _ & Hr & _).
  exists r, w'. split; assumption.
Defined.

Definition sw_data0_world : world SW :=
  set_heap [mkPacket 0 (Some "DATA_0") DATA] (init_world (sw_init 1)).

Lemma sw_receiver_three_cases_witness :
  heap sw_data0_world !! 0%nat = Some (mkPacket 0 (Some "DATA_0") DATA) /\
  sw_receiver lossless 3 0 sw_data0_world =
    sw_reply lossless 2 (sw_set_seq_num 1 (sw_set_buffer {[0 := Some "DATA_0"]} 1 (sw_init 1)))
      (mkPacket 0 None ACK) sw_data0_world.
Proof.
  split; [reflexivity|].
  rewrite (sw_receiver_three_cases lossless 2 0 (mkPacket 0 (Some "DATA_0") DATA)
             sw_data0_world eq_refl).
  reflexivity.
Defined.

(** [sw_lossless_5] with a valid ACK for 0 added as object 10; the pending
    unit is object 8, [DATA_4] with sequence number 0. *)
Definition sw_ack_world : world SW :=
  set_heap (heap sw_lossless_5 ++ [mkPacket 0 None ACK]) sw_lossless_5.

Lemma sw_ack_handler_cases_witness :
  heap sw_ack_world !! 10%nat = Some (mkPacket 0 None ACK) /\
  sw_pending_packet (eng sw_ack_world) = Some 8%nat /\
  heap sw_ack_world !! 8%nat = Some (mkPacket 0 (Some "DATA_4") DATA) /\
  sw_ack_handler lossless 3 10 sw_ack_world = sw_send lossless 2 (sw_advance sw_ack_world).
Proof.
  split; [vm_compute; reflexivity|]. split; [vm_compute; reflexivity|].
  split; [vm_compute; reflexivity|].
  rewrite (sw_ack_handler_cases lossless 2 10 (mkPacket 0 None ACK) 8
             (mkPacket 0 (Some "DATA_4") DATA) sw_ack_world);
    [reflexivity | vm_compute; reflexivity ..].
Defined.

Lemma sw_ack_without_pending_fails_witness :
  sw_receive lossless 2 0 (set_heap [mkPacket 1 None ACK] (init_world (sw_init 3))) =
    Raise AttributeError (set_heap [mkPacket 1 None ACK] (init_world (sw_init 3))) /\
  (sw_ack_handler lossless 3 10 sw_ack_world = Ok tt sw_ack_world \/
   sw_ack_handler lossless 3 10 sw_ack_world = sw_send lossless 2 (sw_advance sw_ack_world)).
Proof.
  split.
  - apply (proj1 (proj2 sw_ack_without_pending_fails) lossless 0%nat 0%nat (mkPacket 1 None ACK));
      vm_compute; reflexivity.
  - apply (proj2 (proj2 sw_ack_without_pending_fails) lossless 2%nat 10%nat (mkPacket 0 None ACK) 8%nat
             (mkPacket 0 (Some "DATA_4") DATA)); vm_compute; reflexivity.
Defined.

(** ** Reasoning about the monad: weakest preconditions *)

(** The world after a run, whether it returned or raised. *)
Definition world_of {E A} (o : outcome (world E) A) : world E :=
  match o with Ok _ w => w | Raise _ w => w end.

(** [Q] holds of the result if [m] returns, [R] of the world if it raises. *)
Definition wp {E A} (m : M E A) (Q : A -> world E -> Prop) (R : world E -> Prop)
  (w : world E) : Prop :=
  match m w with Ok a w' => Q a w' | Raise _ w' => R w' end.

Section WP.
Context {E : Type}.
Implicit Types w : world E.

Lemma wp_bind {A B} (m : M E A) (k : A -> M E B) Q R w :
  wp (bind m k) Q R w = wp m (fun a w' => wp (k a) Q R w') R w.
Proof. unfold wp, bind. destruct (m w); reflexivity. Qed.

Lemma wp_mono {A} (m : M E A) (Q Q' : A -> world E -> Prop) (R R' : world E -> Prop) w :
  wp m Q R w -> (forall a w', Q a w' -> Q' a w') -> (forall w', R w' -> R' w') -> wp m Q' R' w.
Proof. unfold wp. destruct (m w); auto. Qed.

Lemma wp_ret {A} (a : A) Q R w : wp (ret a) Q R w = Q a w.
Proof. reflexivity. Qed.
Lemma wp_raise {A} e (Q : A -> world E -> Prop) R w : wp (raise e) Q R w = R w.
Proof. reflexivity. Qed.
Lemma wp_get_eng Q R w : wp get_eng Q R w = Q (eng w) w.
Proof. reflexivity. Qed.
Lemma wp_modify f Q R w : wp (modify f) Q R w = Q tt (f w).
Proof. reflexivity. Qed.
Lemma wp_put_eng e Q R w : wp (put_eng e) Q R w = Q tt (set_eng e w).
Proof. reflexivity. Qed.
Lemma wp_new_packet sq pl t Q R w :
  wp (new_packet sq pl t) Q R w = Q (length (heap w)) (set_heap (heap w ++ [mkPacket sq pl t]) w).
Proof. reflexivity. Qed.
Lemma wp_new_timer a Q R w :
  wp (new_timer a) Q R w =
  Q (next_timer w) (log (AStartTimer a)
     (set_timers (live_timers w ++ [(next_timer w, a)]) (S (next_timer w)) w)).
Proof. reflexivity. Qed.
Lemma wp_cancel_timer tid a Q R w :
  wp (cancel_timer tid a) Q R w =
  Q tt (log (ACancelTimer a)
     (set_timers (filter (fun t => fst t <> tid) (live_timers w)) (next_timer w) w)).
Proof. reflexivity. Qed.
Lemma wp_read q Q R w :
  wp (read q) Q R w = match heap w !! q with Some pk => Q pk w | None => R w end.
Proof. unfold wp, read. destruct (heap w !! q); reflexivity. Qed.
Lemma wp_sync (k : nat -> M E unit) r Q R w :
  wp (sync k r) Q R w = match r with Some q => wp (k q) Q R w | None => Q tt w end.
Proof. destruct r; reflexivity. Qed.

(** [transmit] in one lemma: it raises only on a dangling id; otherwise it
    logs the transmission, keeps the engine and the timers, may increment
    the object's checksum, and returns [None] or the object itself. *)
Lemma wp_transmit chan q Q R w :
  (heap w !! q = None -> R w) ->
  (forall pk r w', heap w !! q = Some pk ->
     eng w' = eng w ->
     (heap w' = heap w \/ heap w' = <[q := corrupt pk]> (heap w)) ->
     live_timers w' = live_timers w -> next_timer w' = next_timer w ->
     trace w' = trace w ++ [ATransmit q pk] ->
     (r = None \/ r = Some q) -> Q r w') ->
  wp (transmit chan q) Q R w.
Proof.
  intros HN HS. unfold wp, transmit. destruct (heap w !! q) as [pk|] eqn:Hq; [|auto].
  destruct (lost (chan (coin w))); [apply (HS pk); auto|].
  destruct (corrupted (chan (coin w))), (delay (chan (coin w))); apply (HS pk); auto.
Qed.
End WP.

(** One step through a [bind] whose first action is deterministic. *)
Ltac wp_det :=
  rewrite wp_bind;
  first [ rewrite wp_get_eng | rewrite wp_modify | rewrite wp_put_eng
        | rewrite wp_new_packet | rewrite wp_new_timer | rewrite wp_cancel_timer ];
  cbv beta.

(** ** The effect of a Selective-Repeat timeout, as the claims state it *)

(** The shape of a Selective-Repeat engine's state: a positive window; the
    keys of [pending_packets] run from 0 below [seq_num], each naming an
    allocated object that carries the key as its [seq]; the keys of [timer]
    are below [seq_num]; every live timer was created before
    [next_timer]. *)
Definition sr_wf (w : world SR) : Prop :=
  0 < window_size (eng w) /\
  (forall k q, pending_packets (eng w) !! k = Some q ->
     0 <= k < seq_num (eng w) /\ exists pk, heap w !! q = Some pk /\ seq pk = k) /\
  (forall k tid, timer (eng w) !! k = Some tid -> k < seq_num (eng w)) /\
  (forall t, t ∈ live_timers w -> (fst t < next_timer w)%nat).

(** From [w] to [w'], the timeout for [S], whose stored object [p] held
    [pk], did this: the first action is the transmission of [p] as it was
    stored; every later transmission is of an object created during the
    handler (an ACK, or a unit that [send] created); every timer started
    is for [S] or for a sequence number with no unit in flight; the units
    in flight keep their objects; the other objects are untouched and [p]
    keeps its sequence number, payload and type (the channel may bump its
    checksum); the timers stored under other sequence numbers and the live
    timers other than the one stored under [S] are still there. *)
Definition sr_timeout_frame (w : world SR) (s : Z) (p : nat) (pk : Packet)
  (w' : world SR) : Prop :=
  (exists seg, trace w' = trace w ++ ATransmit p pk :: seg /\
     (forall q pk', In (ATransmit q pk') seg -> (length (heap w) <= q)%nat) /\
     (forall k, In (AStartTimer k) seg -> k = s \/ pending_packets (eng w) !! k = None)) /\
  (forall k q, pending_packets (eng w) !! k = Some q -> pending_packets (eng w') !! k = Some q) /\
  (forall q, (q < length (heap w))%nat -> q <> p -> heap w' !! q = heap w !! q) /\
  (exists pk', heap w' !! p = Some pk' /\ seq pk' = seq pk /\ payload pk' = payload pk /\
     type pk' = type pk) /\
  (forall k tid, k <> s -> timer (eng w) !! k = Some tid -> timer (eng w') !! k = Some tid) /\
  (forall t, t ∈ live_timers w -> Some (fst t) <> timer (eng w) !! s -> t ∈ live_timers w').

(** The timer of [S] holds a live timer object for [S], started last. *)
Definition sr_rearmed (s : Z) (w' : world SR) : Prop :=
  exists tid tr, timer (eng w') !! s = Some tid /\ (tid, s) ∈ live_timers w' /\
    trace w' = tr ++ [AStartTimer s].

(** ** What a Selective-Repeat timeout can touch

    [_on_timeout(S)] transmits the stored unit [pending_packets[S]] and
    restarts the timer of [S]; in between, the synchronous delivery of that
    unit may run the receiver, whose ACK may run the ACK handler, which may
    call [send].  The section follows that nested run from the world [base]
    right after the transmission of the stored object [p] and shows that it
    leaves the units in flight, their objects and their timers alone.  The
    hypotheses on [base] are the shape of the engine's state: keys of
    [pending_packets] and [timer] are below [seq_num] (keys start at 0), the
    object stored under a key carries that key as its [seq], and every live
    timer was created before [next_timer]. *)
Section SRTimeoutFrame.
Variable chan : nat -> decision.
Variable base : world SR.
Variables (s : Z) (p : nat).

Local Abbreviation n0 := (seq_num (eng base)).
Local Abbreviation h0 := (length (heap base)).
Local Abbreviation nt0 := (next_timer base).

Hypothesis Hbase_W : 0 < window_size (eng base).
Hypothesis Hbase_pend : forall k q, pending_packets (eng base) !! k = Some q -> 0 <= k < n0.
Hypothesis Hbase_timer : forall k tid, timer (eng base) !! k = Some tid -> k < n0.
Hypothesis Hbase_live : forall t, t ∈ live_timers base -> (fst t < nt0)%nat.
Hypothesis Hs : pending_packets (eng base) !! s = Some p.
Hypothesis Hp : exists pk, heap base !! p = Some pk /\ seq pk = s.

(** A sequence number the nested run may act on: [S] itself, one at or
    past the window's start, or one with no unit in flight. *)
Definition harmless (k : Z) : Prop :=
  k = s \/ n0 <= k \/ pending_packets (eng base) !! k = None.

(** What the nested run may append to the trace: transmissions of objects
    it created, timers for sequence numbers at or past [seq_num]. *)
Definition new_action (a : action) : Prop :=
  match a with
  | ATransmit q _ => (h0 <= q)%nat
  | AStartTimer k => n0 <= k
  | _ => True
  end.

Record Fr (w : world SR) : Prop := {
  fr_W : window_size (eng w) = window_size (eng base);
  fr_seq : n0 <= seq_num (eng w);
  fr_pend : forall k, k < n0 -> pending_packets (eng w) !! k = pending_packets (eng base) !! k;
  fr_timer_old : forall k, k <> s -> k < n0 -> timer (eng w) !! k = timer (eng base) !! k;
  fr_timer_s : timer (eng w) !! s = timer (eng base) !! s \/ timer (eng w) !! s = None;
  fr_timer_new : forall k tid, n0 <= k -> timer (eng w) !! k = Some tid -> (nt0 <= tid)%nat;
  fr_live : forall t, t ∈ live_timers base -> Some (fst t) <> timer (eng base) !! s ->
            t ∈ live_timers w;
  fr_next : (nt0 <= next_timer w)%nat;
  fr_heap_len : (h0 <= length (heap w))%nat;
  fr_heap_old : forall q, (q < h0)%nat -> heap w !! q = heap base !! q;
  fr_heap_new : forall q pk, (h0 <= q)%nat -> heap w !! q = Some pk -> harmless (seq pk);
  fr_trace : exists seg, trace w = trace base ++ seg /\ Forall new_action seg
}.

Lemma s_range : 0 <= s < n0.
Proof. exact (Hbase_pend _ _ Hs). Qed.

Lemma p_alloc : (p < h0)%nat.
Proof. destruct Hp as [pk [Hpk _]]. exact (lookup_lt_Some _ _ _ Hpk). Qed.

(** The ACK for a corrupted unit carries [1 - seq_num]: with [S] in flight
    that is [S] itself or a number with no unit in flight. *)
Lemma harmless_flip m : n0 <= m -> harmless (1 - m).
Proof.
  intros Hm. pose proof s_range.
  destruct (Z_lt_le_dec (1 - m) 0) as [Hneg|Hnn].
  - right; right. destruct (pending_packets (eng base) !! (1 - m)) eqn:E; [|reflexivity].
    apply Hbase_pend in E. lia.
  - left. lia.
Qed.

Lemma trace_ext (w : world SR) a :
  (exists seg, trace w = trace base ++ seg /\ Forall new_action seg) -> new_action a ->
  exists seg, trace w ++ [a] = trace base ++ seg /\ Forall new_action seg.
Proof.
  intros [seg [Ht Hseg]] Ha. exists (seg ++ [a]). rewrite Ht, app_assoc.
  split; [reflexivity|]. apply Forall_app; auto.
Qed.

Lemma Fr_base : Fr base.
Proof.
  constructor; auto; try lia.
  - intros k tid Hk Ht. apply Hbase_timer in Ht. lia.
  - intros q pk Hq Hl. apply lookup_lt_Some in Hl. lia.
  - exists []. rewrite app_nil_r. auto.
Qed.

Lemma Fr_log_send w : Fr w -> Fr (log ASendCall w).
Proof.
  intros []; constructor; simpl; auto. apply trace_ext; simpl; auto.
Qed.

(** Updates of the engine that leave the window, the units in flight and
    the timers as they are. *)
Lemma Fr_eng w e :
  Fr w -> window_size e = window_size (eng w) -> seq_num e = seq_num (eng w) ->
  pending_packets e = pending_packets (eng w) -> timer e = timer (eng w) ->
  Fr (set_eng e w).
Proof.
  intros [] HW HS HP HT; constructor; simpl; rewrite ?HW, ?HS, ?HP, ?HT; auto.
Qed.

Lemma Fr_seq_num w d :
  Fr w -> 0 <= d -> Fr (set_eng (set_seq_num (seq_num (eng w) + d) (eng w)) w).
Proof. intros [] Hd; constructor; simpl; auto. lia. Qed.

Lemma Fr_pending w k q :
  Fr w -> n0 <= k ->
  Fr (set_eng (set_pending (<[k := q]> (pending_packets (eng w))) (eng w)) w).
Proof.
  intros [] Hk; constructor; simpl; auto.
  intros k' Hk'. rewrite lookup_insert_ne by lia. auto.
Qed.

Lemma Fr_new_packet w sq pl t :
  Fr w -> harmless sq -> Fr (set_heap (heap w ++ [mkPacket sq pl t]) w).
Proof.
  intros [] Hsq; constructor; simpl; auto.
  - rewrite length_app. lia.
  - intros q Hq. rewrite lookup_app_l by lia. auto.
  - intros q pk Hq Hl. apply lookup_app_Some in Hl as [Hl|[_ Hl]]; [eauto|].
    apply list_lookup_singleton_Some in Hl as [_ <-]. exact Hsq.
Qed.

Lemma wp_transmit_new w q :
  Fr w -> (h0 <= q)%nat ->
  wp (transmit chan q) (fun r w' => Fr w' /\ (r = None \/ r = Some q)) Fr w.
Proof.
  intros HF Hq. apply wp_transmit; [intros; exact HF|].
  intros pk r w' Hpk He Hh Hl Hn Ht Hr. split; [|exact Hr].
  destruct HF; constructor; rewrite ?He, ?Hl, ?Hn; auto.
  - destruct Hh as [-> | ->]; rewrite ?length_insert; auto.
  - intros q' Hq'. destruct Hh as [-> | ->]; [auto|].
    rewrite list_lookup_insert_ne by lia. auto.
  - intros q' pk' Hq' Hl'. destruct Hh as [Hh | Hh]; rewrite Hh in Hl'; [eauto|].
    destruct (decide (q' = q)) as [->|Hne].
    + rewrite list_lookup_insert_eq in Hl' by (eapply lookup_lt_Some; eauto).
      injection Hl' as <-. simpl. eauto.
    + rewrite list_lookup_insert_ne in Hl' by congruence. eauto.
  - rewrite Ht. apply trace_ext; auto.
Qed.

Lemma wp_start_timer_new w k :
  Fr w -> n0 <= k -> wp (win_start_timer k) (fun _ => Fr) Fr w.
Proof.
  intros HF Hk. unfold win_start_timer. wp_det. wp_det. rewrite wp_put_eng.
  destruct HF; constructor; simpl; auto.
  - intros k' Hk' Hlt. rewrite lookup_insert_ne by lia. auto.
  - pose proof s_range. rewrite lookup_insert_ne by lia. auto.
  - intros k' tid Hk' Ht. destruct (decide (k' = k)) as [->|Hne].
    + rewrite lookup_insert_eq in Ht. injection Ht as <-. lia.
    + rewrite lookup_insert_ne in Ht by congruence. eauto.
  - intros t Ht Hts. apply elem_of_app. left. auto.
  - apply trace_ext; simpl; auto.
Qed.

Lemma wp_stop_timer_new w k :
  Fr w -> k = s \/ n0 <= k -> wp (win_stop_timer k) (fun _ => Fr) Fr w.
Proof.
  intros HF Hk. unfold win_stop_timer. wp_det.
  destruct (timer (eng w) !! k) as [tid|] eqn:Htk; [|rewrite wp_ret; exact HF].
  wp_det. wp_det. rewrite wp_put_eng.
  pose proof s_range.
  destruct HF; constructor; simpl; auto.
  - intros k' Hk' Hlt. rewrite lookup_delete_ne by lia. auto.
  - destruct (decide (k = s)) as [->|Hne].
    + right. apply lookup_delete_eq.
    + rewrite lookup_delete_ne by congruence. auto.
  - intros k' tid' Hk' Ht. destruct (decide (k' = k)) as [->|Hne].
    + rewrite lookup_delete_eq in Ht. discriminate.
    + rewrite lookup_delete_ne in Ht by congruence. eauto.
  - intros t Ht Hts. apply list_elem_of_filter. split; [|auto].
    destruct Hk as [->|Hk].
    + destruct fr_timer_s0 as [Hb|Hb]; rewrite Hb in Htk; [|discriminate].
      intros Heq. apply Hts. rewrite Htk, Heq. reflexivity.
    + apply fr_timer_new0 in Htk; [|exact Hk]. apply Hbase_live in Ht. lia.
  - apply trace_ext; simpl; auto.
Qed.

(** Objects the nested run reads: the stored unit [p] and the objects it
    created itself. *)
Lemma Fr_read_harmless w q pk :
  Fr w -> q = p \/ (h0 <= q)%nat -> heap w !! q = Some pk -> harmless (seq pk).
Proof.
  intros HF [->|Hq] Hl.
  - rewrite (fr_heap_old _ HF _ p_alloc) in Hl. destruct Hp as [pk' [Hpk' Hs']].
    rewrite Hpk' in Hl. injection Hl as <-. left. exact Hs'.
  - exact (fr_heap_new _ HF _ _ Hq Hl).
Qed.

Lemma wp_receiver_update_new w pk :
  Fr w -> harmless (seq pk) ->
  wp (win_receiver_update pk) (fun ack w' => Fr w' /\ (h0 <= ack)%nat) Fr w.
Proof.
  intros HF Hpk. pose proof (fr_heap_len _ HF). unfold win_receiver_update. wp_det.
  destruct (is_corrupt pk).
  { rewrite wp_new_packet. split; [|lia].
    apply Fr_new_packet; [exact HF|]. apply harmless_flip, (fr_seq _ HF). }
  destruct (seq pk =? ack_received (eng w)).
  - wp_det. wp_det. wp_det. wp_det. rewrite wp_ret. split; [|simpl; lia].
    apply Fr_eng; try reflexivity. apply Fr_new_packet; [|exact Hpk].
    apply Fr_eng; try reflexivity. exact HF.
  - rewrite wp_new_packet. split; [|lia]. apply Fr_new_packet; assumption.
Qed.

Lemma py_range_nonneg b : Forall (fun i => 0 <= i) (py_range 0 b).
Proof.
  unfold py_range. apply Forall_map, Forall_forall. intros k _. lia.
Qed.

Lemma wp_sr_send_loop (receive : nat -> M SR unit) :
  (forall q w, Fr w -> (h0 <= q)%nat -> wp (receive q) (fun _ => Fr) Fr w) ->
  forall is w, Forall (fun i => 0 <= i) is -> Fr w ->
  wp (sr_send_loop chan receive is) (fun _ => Fr) Fr w.
Proof.
  intros Hrec is. induction is as [|i is IH]; intros w Hi HF; cbn [sr_send_loop].
  { rewrite wp_ret. exact HF. }
  apply Forall_cons in Hi as [Hi0 Hi]. wp_det. rewrite wp_bind.
  assert (Hnext : forall w', Fr w' -> wp (sr_send_loop chan receive is) (fun _ => Fr) Fr w')
    by (intros; apply IH; assumption).
  destruct (sent_count (eng w) + i <? total_packets (eng w)); [|rewrite wp_ret; auto].
  pose proof (fr_seq _ HF). pose proof (fr_heap_len _ HF).
  wp_det. wp_det. wp_det. rewrite wp_bind.
  eapply wp_mono; [apply wp_transmit_new | | auto].
  { apply Fr_pending; [apply Fr_new_packet; [exact HF|] | simpl; lia].
    right; left. lia. }
  { simpl. lia. }
  intros r w1 [HF1 Hr]. rewrite wp_bind, wp_sync.
  assert (Htail : wp (e2 <- get_eng ;; win_start_timer (seq_num e2 + i))
                    (fun _ w' => wp (sr_send_loop chan receive is) (fun _ => Fr) Fr w') Fr w1).
  { wp_det. eapply wp_mono; [apply wp_start_timer_new | | auto]; auto.
    pose proof (fr_seq _ HF1). lia. }
  destruct Hr as [->| ->].
  - exact Htail.
  - eapply wp_mono; [apply Hrec; [exact HF1 | simpl; lia] | | auto].
    intros u w2 HF2. wp_det. eapply wp_mono; [apply wp_start_timer_new | | auto]; auto.
    pose proof (fr_seq _ HF2). lia.
Qed.

(** The nested run: [send], and [receive], [_receiver] and
    [_ack_handler] on the stored unit or on an object the run created. *)
Lemma wp_sr_nested fuel :
  (forall w, Fr w -> wp (sr_send chan fuel) (fun _ => Fr) Fr w) /\
  (forall q w, Fr w -> q = p \/ (h0 <= q)%nat ->
     wp (sr_receive chan fuel q) (fun _ => Fr) Fr w) /\
  (forall q w, Fr w -> q = p \/ (h0 <= q)%nat ->
     wp (sr_receiver chan fuel q) (fun _ => Fr) Fr w) /\
  (forall q w, Fr w -> q = p \/ (h0 <= q)%nat ->
     wp (sr_ack_handler chan fuel q) (fun _ => Fr) Fr w).
Proof.
  induction fuel as [|f IH].
  { split; [|split; [|split]]; intros; exact H. }
  destruct IH as (IHs & IHrv & IHr & IHa). split; [|split; [|split]].
  - (* send *)
    intros w HF. cbn [sr_send]. wp_det. wp_det.
    pose proof (Fr_log_send _ HF) as HF0.
    destruct (total_packets _ <=? sent_count _).
    { rewrite wp_put_eng. apply Fr_eng; auto. }
    rewrite wp_bind. eapply wp_mono; [apply wp_sr_send_loop | | auto].
    + intros q w' HF' Hq. apply IHrv; auto.
    + apply py_range_nonneg.
    + exact HF0.
    + intros u w1 HF1. wp_det. rewrite wp_put_eng. apply Fr_seq_num; [exact HF1|].
      rewrite (fr_W _ HF1). lia.
  - (* receive *)
    intros q w HF Hq. cbn [sr_receive]. rewrite wp_bind, wp_read.
    destruct (heap w !! q) as [pk|]; [|exact HF].
    destruct (type pk); [apply IHr | apply IHa]; auto.
  - (* _receiver *)
    intros q w HF Hq. cbn [sr_receiver]. rewrite wp_bind, wp_read.
    destruct (heap w !! q) as [pk|] eqn:Hl; [|exact HF].
    rewrite wp_bind. eapply wp_mono; [apply wp_receiver_update_new | | auto].
    { exact HF. }
    { exact (Fr_read_harmless _ _ _ HF Hq Hl). }
    intros ack w1 [HF1 Hack]. rewrite wp_bind.
    eapply wp_mono; [apply wp_transmit_new; eauto | | auto].
    intros r w2 [HF2 Hr]. rewrite wp_sync.
    destruct Hr as [->| ->]; [exact HF2 | apply IHrv; auto].
  - (* _ack_handler *)
    intros q w HF Hq. cbn [sr_ack_handler]. rewrite wp_bind, wp_read.
    destruct (heap w !! q) as [ack|] eqn:Hl; [|exact HF].
    destruct (is_corrupt ack); [rewrite wp_ret; exact HF|]. wp_det.
    destruct (pending_packets (eng w) !! seq ack) as [u|] eqn:Hu; [|rewrite wp_ret; exact HF].
    assert (Hk : seq ack = s \/ n0 <= seq ack).
    { destruct (Fr_read_harmless _ _ _ HF Hq Hl) as [Hk|[Hk|Hk]]; auto.
      destruct (Z_lt_le_dec (seq ack) n0) as [Hlt|]; [|auto].
      rewrite (fr_pend _ HF _ Hlt), Hk in Hu. discriminate. }
    rewrite wp_bind. eapply wp_mono; [apply wp_stop_timer_new; eauto | | auto].
    intros v w1 HF1. wp_det. wp_det. wp_det.
    pose proof (Fr_eng _ (set_sent_count (sent_count (eng w1) + 1) (eng w1)) HF1
                  eq_refl eq_refl eq_refl eq_refl) as HF2.
    destruct (_ <? _); [apply IHs; exact HF2 | rewrite wp_ret; exact HF2].
Qed.

(** The frame, read back against the world [w0] before the timeout's own
    transmission. *)
Lemma Fr_timeout_frame (w0 : world SR) pk w2 :
  eng base = eng w0 -> heap w0 !! p = Some pk ->
  (heap base = heap w0 \/ heap base = <[p := corrupt pk]> (heap w0)) ->
  live_timers base = live_timers w0 -> trace base = trace w0 ++ [ATransmit p pk] ->
  Fr w2 -> sr_timeout_frame w0 s p pk w2.
Proof.
  intros He Hpk Hh Hl Ht HF.
  assert (Hlen : length (heap base) = length (heap w0))
    by (destruct Hh as [-> | ->]; rewrite ?length_insert; reflexivity).
  pose proof p_alloc as Hpa.
  split; [|split; [|split; [|split; [|split]]]].
  - destruct (fr_trace _ HF) as [seg [Ht2 Hseg]]. exists seg.
    rewrite Ht2, Ht, <- app_assoc. split; [reflexivity|].
    rewrite List.Forall_forall in Hseg. split.
    + intros q pk' Hin. specialize (Hseg _ Hin). simpl in Hseg. lia.
    + intros k Hin. right. specialize (Hseg _ Hin). simpl in Hseg.
      destruct (pending_packets (eng w0) !! k) eqn:E; [|reflexivity].
      rewrite <- He in E. apply Hbase_pend in E. lia.
  - intros k q Hk. rewrite <- He in Hk. pose proof (Hbase_pend _ _ Hk).
    rewrite (fr_pend _ HF) by lia. exact Hk.
  - intros q Hq Hne. rewrite (fr_heap_old _ HF) by lia.
    destruct Hh as [-> | ->]; [reflexivity|]. rewrite list_lookup_insert_ne by congruence.
    reflexivity.
  - rewrite (fr_heap_old _ HF _ Hpa). destruct Hh as [-> | ->].
    + exists pk. auto.
    + exists (corrupt pk). rewrite list_lookup_insert_eq by (eapply lookup_lt_Some; eauto).
      auto.
  - intros k tid Hne Hk. rewrite <- He in Hk. pose proof (Hbase_timer _ _ Hk).
    rewrite (fr_timer_old _ HF) by lia. exact Hk.
  - intros t Ht' Hts. rewrite <- He in Hts. apply (fr_live _ HF); [|exact Hts].
    rewrite Hl. exact Ht'.
Qed.

End SRTimeoutFrame.

(** The last step of [_on_timeout]: [_start_timer(S)]. *)
Lemma sr_timeout_frame_start_timer w0 s p pk w2 :
  sr_timeout_frame w0 s p pk w2 ->
  wp (win_start_timer s)
     (fun _ w3 => sr_timeout_frame w0 s p pk w3 /\ sr_rearmed s w3)
     (sr_timeout_frame w0 s p pk) w2.
Proof.
  intros (Htr & Hpd & Hho & Hhp & Htm & Hlv). unfold win_start_timer.
  wp_det. wp_det. rewrite wp_put_eng. split.
  - split; [|split; [|split; [|split; [|split]]]]; simpl; auto.
    + destruct Htr as [seg [Ht [Ha Hb]]]. exists (seg ++ [AStartTimer s]).
      rewrite Ht, <- app_assoc. split; [reflexivity|]. split.
      * intros q pk' Hin. apply in_app_or in Hin as [Hin|[Hin|[]]]; [eauto|discriminate].
      * intros k Hin. apply in_app_or in Hin as [Hin|[Hin|[]]]; [eauto|].
        injection Hin as ->. left. reflexivity.
    + intros k tid Hne Hk. rewrite lookup_insert_ne by congruence. eauto.
    + intros t Ht Hts. apply elem_of_app. left. auto.
  - exists (next_timer w2), (trace w2). simpl.
    split; [apply lookup_insert_eq|]. split; [|reflexivity].
    apply elem_of_app. right. apply list_elem_of_singleton. reflexivity.
Qed.

(** ** The shape of a Selective-Repeat engine's state is kept by every event

    Inside [send], the units of the current window are stored under
    [seq_num + i] before [seq_num] moves on, so the invariant carries a
    slack [d]: keys stay below [seq_num + d], and a [send] that runs with
    slack [d] works with slack [d + window_size] until its final
    [seq_num += window_size].  [lo] is a lower bound of [seq_num], which
    only grows when there is a unit in flight. *)
Record sr_inv (W d lo : Z) (w : world SR) : Prop := {
  inv_W : window_size (eng w) = W;
  inv_pend : forall k q, pending_packets (eng w) !! k = Some q ->
    0 < W /\ 0 <= k < seq_num (eng w) + d /\ exists pk, heap w !! q = Some pk /\ seq pk = k;
  inv_timer : forall k tid, timer (eng w) !! k = Some tid -> 0 < W /\ k < seq_num (eng w) + d;
  inv_seq : 0 < W -> 0 <= seq_num (eng w) /\ lo <= seq_num (eng w);
  inv_live : forall t, t ∈ live_timers w -> (fst t < next_timer w)%nat
}.

Section SRInvariant.
Variable chan : nat -> decision.

Lemma inv_eng W d lo w e :
  sr_inv W d lo w -> window_size e = window_size (eng w) -> seq_num e = seq_num (eng w) ->
  pending_packets e = pending_packets (eng w) -> timer e = timer (eng w) ->
  sr_inv W d lo (set_eng e w).
Proof. intros [] HW HS HP HT; constructor; simpl; rewrite ?HW, ?HS, ?HP, ?HT; auto. Qed.

Lemma inv_log W d lo w a : sr_inv W d lo w -> sr_inv W d lo (log a w).
Proof. intros []; constructor; simpl; auto. Qed.

Lemma inv_new_packet W d lo w sq pl t :
  sr_inv W d lo w -> sr_inv W d lo (set_heap (heap w ++ [mkPacket sq pl t]) w).
Proof.
  intros []; constructor; simpl; auto.
  intros k q Hk. destruct (inv_pend0 _ _ Hk) as (HW & Hr & pk & Hpk & Hs).
  split; [exact HW|]. split; [exact Hr|]. exists pk. split; [|exact Hs].
  rewrite lookup_app_l by (eapply lookup_lt_Some; eauto). exact Hpk.
Qed.

(** A slack can always be widened by a window; and [seq_num += W] uses
    it up. *)
Lemma inv_widen W d lo w : sr_inv W d lo w -> sr_inv W (d + W) lo w.
Proof.
  intros []; constructor; auto.
  - intros k q Hk. destruct (inv_pend0 _ _ Hk) as (HW & Hr & Hx). auto with lia.
  - intros k tid Hk. destruct (inv_timer0 _ _ Hk) as [HW Hr]. lia.
Qed.

Lemma inv_advance W d lo w :
  sr_inv W (d + W) lo w ->
  sr_inv W d lo (set_eng (set_seq_num (seq_num (eng w) + window_size (eng w)) (eng w)) w).
Proof.
  intros []; constructor; simpl; auto; rewrite inv_W0.
  - intros k q Hk. destruct (inv_pend0 _ _ Hk) as (HW & Hr & Hx). auto with lia.
  - intros k tid Hk. destruct (inv_timer0 _ _ Hk) as [HW Hr]. lia.
  - intros HW. destruct (inv_seq0 HW). lia.
Qed.

Lemma inv_lower W d lo lo' w :
  sr_inv W d lo' w -> (0 < W -> lo <= lo') -> sr_inv W d lo w.
Proof. intros [] Hlo; constructor; auto. intros HW. destruct (inv_seq0 HW). auto with lia. Qed.

Lemma inv_relo W d lo w : sr_inv W d lo w -> sr_inv W d (seq_num (eng w)) w.
Proof. intros []; constructor; auto. intros HW. destruct (inv_seq0 HW). lia. Qed.

Lemma wp_transmit_inv W d lo w q :
  sr_inv W d lo w ->
  wp (transmit chan q) (fun r w' => sr_inv W d lo w' /\ (r = None \/ r = Some q))
     (fun _ => True) w.
Proof.
  intros HI. apply wp_transmit; [auto|].
  intros pk r w' Hpk He Hh Hl Hn Ht Hr. split; [|exact Hr].
  destruct HI; constructor; rewrite ?He, ?Hl, ?Hn; auto.
  intros k q' Hk. destruct (inv_pend0 _ _ Hk) as (HW & Hrg & pk' & Hpk' & Hs).
  split; [exact HW|]. split; [exact Hrg|].
  destruct Hh as [-> | ->]; [eauto|].
  destruct (decide (q' = q)) as [->|Hne].
  - exists (corrupt pk). rewrite list_lookup_insert_eq by (eapply lookup_lt_Some; eauto).
    rewrite Hpk in Hpk'. injection Hpk' as <-. auto.
  - exists pk'. rewrite list_lookup_insert_ne by congruence. auto.
Qed.

Lemma wp_start_timer_inv W d lo w k :
  sr_inv W d lo w -> 0 < W -> k < seq_num (eng w) + d ->
  wp (win_start_timer k) (fun _ => sr_inv W d lo) (fun _ => True) w.
Proof.
  intros HI HW Hk. unfold win_start_timer. wp_det. wp_det. rewrite wp_put_eng.
  destruct HI; constructor; simpl; auto.
  - intros k' tid Ht. destruct (decide (k' = k)) as [->|Hne]; [auto|].
    rewrite lookup_insert_ne in Ht by congruence. eauto.
  - intros t Ht. apply elem_of_app in Ht as [Ht|Ht].
    + apply inv_live0 in Ht. lia.
    + apply list_elem_of_singleton in Ht as ->. simpl. lia.
Qed.

Lemma wp_stop_timer_inv W d lo w k :
  sr_inv W d lo w -> wp (win_stop_timer k) (fun _ => sr_inv W d lo) (fun _ => True) w.
Proof.
  intros HI. unfold win_stop_timer. wp_det.
  destruct (timer (eng w) !! k) as [tid|]; [|rewrite wp_ret; exact HI].
  wp_det. wp_det. rewrite wp_put_eng.
  destruct HI; constructor; simpl; auto.
  - intros k' tid' Ht. destruct (decide (k' = k)) as [->|Hne].
    + rewrite lookup_delete_eq in Ht. discriminate.
    + rewrite lookup_delete_ne in Ht by congruence. eauto.
  - intros t Ht. apply list_elem_of_filter in Ht as [_ Ht]. auto.
Qed.

Lemma wp_receiver_update_inv W d lo w pk :
  sr_inv W d lo w -> wp (win_receiver_update pk) (fun _ => sr_inv W d lo) (fun _ => True) w.
Proof.
  intros HI. unfold win_receiver_update. wp_det.
  destruct (is_corrupt pk); [rewrite wp_new_packet; apply inv_new_packet; exact HI|].
  destruct (seq pk =? ack_received (eng w)).
  - wp_det. wp_det. wp_det. wp_det. rewrite wp_ret.
    apply inv_eng; try reflexivity. apply inv_new_packet. apply inv_eng; auto.
  - rewrite wp_new_packet. apply inv_new_packet. exact HI.
Qed.

Lemma wp_sr_send_loop_inv (receive : nat -> M SR unit) W d lo :
  0 <= d ->
  (forall q w, sr_inv W (d + W) lo w -> wp (receive q) (fun _ => sr_inv W (d + W) lo) (fun _ => True) w) ->
  forall is w, Forall (fun i => 0 <= i < W) is -> sr_inv W (d + W) lo w ->
  wp (sr_send_loop chan receive is) (fun _ => sr_inv W (d + W) lo) (fun _ => True) w.
Proof.
  intros Hd Hrec is. induction is as [|i is IH]; intros w Hi HI; cbn [sr_send_loop].
  { rewrite wp_ret. exact HI. }
  apply Forall_cons in Hi as [Hi0 Hi]. wp_det. rewrite wp_bind.
  destruct (sent_count (eng w) + i <? total_packets (eng w)); [|rewrite wp_ret; auto].
  assert (HW : 0 < W) by lia.
  pose proof (inv_seq _ _ _ _ HI HW) as [Hsq _]. pose proof (inv_W _ _ _ _ HI) as HWw.
  wp_det. wp_det. wp_det. rewrite wp_bind.
  eapply wp_mono; [apply (wp_transmit_inv W (d + W) lo) | | auto].
  { destruct (inv_new_packet _ _ _ _ (seq_num (eng w) + i)
                (Some ("DATA_" +:+ pretty (sent_count (eng w) + i))) DATA HI).
    constructor; cbn -[Z.add]; auto.
    intros k q Hk. destruct (decide (k = seq_num (eng w) + i)) as [->|Hne].
    - rewrite lookup_insert_eq in Hk. injection Hk as <-.
      split; [exact HW|]. split; [lia|].
      exists (mkPacket (seq_num (eng w) + i)
                (Some ("DATA_" +:+ pretty (sent_count (eng w) + i))) DATA).
      split; [apply list_lookup_middle; reflexivity | reflexivity].
    - rewrite lookup_insert_ne in Hk by congruence. eauto. }
  intros r w1 [HI1 Hr]. rewrite wp_bind, wp_sync.
  assert (Htail : forall w2, sr_inv W (d + W) lo w2 ->
            wp (e2 <- get_eng ;; win_start_timer (seq_num e2 + i))
               (fun _ w' => wp (sr_send_loop chan receive is) (fun _ => sr_inv W (d + W) lo)
                              (fun _ => True) w') (fun _ => True) w2).
  { intros w2 HI2. wp_det. eapply wp_mono; [apply wp_start_timer_inv | | auto]; eauto.
    lia. }
  destruct Hr as [->| ->].
  - apply Htail. exact HI1.
  - eapply wp_mono; [apply Hrec; exact HI1 | | auto]. intros u w2 HI2. apply Htail. exact HI2.
Qed.

Lemma py_range_bounds b : Forall (fun i => 0 <= i < b) (py_range 0 b).
Proof.
  unfold py_range. apply Forall_map, Forall_forall. intros k Hk.
  apply list_elem_of_In, in_seq in Hk. lia.
Qed.

Lemma wp_sr_inv fuel :
  forall W d lo, 0 <= d ->
  (forall w, sr_inv W d lo w ->
     wp (sr_send chan fuel) (fun _ => sr_inv W d lo) (fun _ => True) w) /\
  (forall q w, sr_inv W d lo w ->
     wp (sr_receive chan fuel q) (fun _ => sr_inv W d lo) (fun _ => True) w) /\
  (forall q w, sr_inv W d lo w ->
     wp (sr_receiver chan fuel q) (fun _ => sr_inv W d lo) (fun _ => True) w) /\
  (forall q w, sr_inv W d lo w ->
     wp (sr_ack_handler chan fuel q) (fun _ => sr_inv W d lo) (fun _ => True) w).
Proof.
  induction fuel as [|f IH]; intros W d lo Hd.
  { split; [|split; [|split]]; intros; exact I. }
  destruct (IH W d lo Hd) as (IHs & IHrv & IHr & IHa).
  split; [|split; [|split]].
  - (* send *)
    intros w HI. cbn [sr_send]. wp_det. wp_det.
    pose proof (inv_log _ _ _ _ ASendCall HI) as HI0.
    destruct (total_packets _ <=? sent_count _).
    { rewrite wp_put_eng. apply inv_eng; auto. }
    rewrite wp_bind. simpl eng. rewrite (inv_W _ _ _ _ HI).
    eapply wp_mono with (Q := fun _ => sr_inv W (d + W) lo); [| | auto].
    + destruct (Z_lt_le_dec 0 W) as [HW|HW].
      * apply wp_sr_send_loop_inv; [exact Hd | | apply py_range_bounds | apply inv_widen; exact HI0].
        intros q w' HI'. apply (IH W (d + W) lo); [lia | exact HI'].
      * unfold py_range. replace (Z.to_nat (W - 0)) with 0%nat by lia. simpl.
        rewrite wp_ret. apply inv_widen. exact HI0.
    + intros u w1 HI1. wp_det. rewrite wp_put_eng. apply inv_advance. exact HI1.
  - (* receive *)
    intros q w HI. cbn [sr_receive]. rewrite wp_bind, wp_read.
    destruct (heap w !! q) as [pk|]; [|exact I].
    destruct (type pk); [apply IHr | apply IHa]; exact HI.
  - (* _receiver *)
    intros q w HI. cbn [sr_receiver]. rewrite wp_bind, wp_read.
    destruct (heap w !! q) as [pk|]; [|exact I].
    rewrite wp_bind. eapply wp_mono; [apply wp_receiver_update_inv; exact HI | | auto].
    intros ack w1 HI1. rewrite wp_bind.
    eapply wp_mono; [apply wp_transmit_inv; exact HI1 | | auto].
    intros r w2 [HI2 Hr]. rewrite wp_sync.
    destruct Hr as [->| ->]; [exact HI2 | apply IHrv; exact HI2].
  - (* _ack_handler *)
    intros q w HI. cbn [sr_ack_handler]. rewrite wp_bind, wp_read.
    destruct (heap w !! q) as [ack|]; [|exact I].
    destruct (is_corrupt ack); [rewrite wp_ret; exact HI|]. wp_det.
    destruct (pending_packets (eng w) !! seq ack); [|rewrite wp_ret; exact HI].
    rewrite wp_bind. eapply wp_mono; [apply wp_stop_timer_inv; exact HI | | auto].
    intros v w1 HI1. wp_det. wp_det. wp_det.
    pose proof (inv_eng _ _ _ _ (set_sent_count (sent_count (eng w1) + 1) (eng w1)) HI1
                  eq_refl eq_refl eq_refl eq_refl) as HI2.
    destruct (_ <? _); [apply IHs; exact HI2 | rewrite wp_ret; exact HI2].
Qed.

Lemma wp_sr_on_timeout_inv f W d lo s w :
  0 <= d -> sr_inv W d lo w ->
  wp (sr_on_timeout chan f s) (fun _ => sr_inv W d lo) (fun _ => True) w.
Proof.
  intros Hd HI. unfold sr_on_timeout. wp_det.
  destruct (pending_packets (eng w) !! s) as [p|] eqn:Hs; [|exact I].
  destruct (inv_pend _ _ _ _ HI _ _ Hs) as (HW & Hsr & _).
  pose proof (inv_seq _ _ _ _ HI HW) as [_ Hlo].
  rewrite wp_bind. eapply wp_mono; [apply (wp_transmit_inv W d (seq_num (eng w))), (inv_relo W d lo), HI | | auto].
  intros r w1 [HI1 Hr]. rewrite wp_bind, wp_sync.
  destruct (wp_sr_inv f W d (seq_num (eng w)) Hd) as (_ & Hrecv & _ & _).
  assert (Hfin : forall w2, sr_inv W d (seq_num (eng w)) w2 ->
            wp (win_start_timer s) (fun _ => sr_inv W d lo) (fun _ => True) w2).
  { intros w2 HI2. pose proof (inv_seq _ _ _ _ HI2 HW) as [_ Hle].
    apply wp_start_timer_inv; [| exact HW | lia].
    apply (inv_lower _ _ _ (seq_num (eng w))); [exact HI2|]. intros; lia. }
  destruct Hr as [->| ->].
  - apply Hfin. exact HI1.
  - eapply wp_mono; [apply Hrecv; exact HI1 | | auto]. intros u w2 HI2. apply Hfin. exact HI2.
Qed.
End SRInvariant.

(** ** Where a Selective-Repeat event can raise [KeyError]

    Only the lookup [self.pending_packets[seq_num]] of [_on_timeout] raises
    [KeyError]; [send], [receive], [_receiver] and [_ack_handler] never do. *)
Definition no_keyerror {E A} (m : M E A) : Prop :=
  forall w e w', m w = Raise e w' -> e <> KeyError.

Section NoKeyError.
Context {E : Type}.

Lemma nk_bind {A B} (m : M E A) (k : A -> M E B) :
  no_keyerror m -> (forall a, no_keyerror (k a)) -> no_keyerror (bind m k).
Proof.
  intros Hm Hk w e w' H. unfold bind in H. destruct (m w) as [a w1|e1 w1] eqn:Em.
  - exact (Hk a _ _ _ H).
  - injection H as <- _. exact (Hm _ _ _ Em).
Qed.

Lemma nk_ret {A} (a : A) : no_keyerror (E:=E) (ret a).
Proof. intros w e w' H. discriminate. Qed.
Lemma nk_get_eng : no_keyerror (E:=E) get_eng.
Proof. intros w e w' H. discriminate. Qed.
Lemma nk_modify f : no_keyerror (E:=E) (modify f).
Proof. intros w e w' H. discriminate. Qed.
Lemma nk_put_eng (e0 : E) : no_keyerror (put_eng e0).
Proof. intros w e w' H. discriminate. Qed.
Lemma nk_new_packet sq pl t : no_keyerror (E:=E) (new_packet sq pl t).
Proof. intros w e w' H. discriminate. Qed.
Lemma nk_new_timer a : no_keyerror (E:=E) (new_timer a).
Proof. intros w e w' H. discriminate. Qed.
Lemma nk_cancel_timer tid a : no_keyerror (E:=E) (cancel_timer tid a).
Proof. intros w e w' H. discriminate. Qed.
Lemma nk_raise {A} e0 : e0 <> KeyError -> no_keyerror (E:=E) (A:=A) (raise e0).
Proof. intros Hne w e w' H. injection H as <- _. exact Hne. Qed.
Lemma nk_read q : no_keyerror (E:=E) (read q).
Proof.
  intros w e w' H. unfold read in H. destruct (heap w !! q); [discriminate|].
  injection H as <- _. discriminate.
Qed.
Lemma nk_transmit chan q : no_keyerror (E:=E) (transmit chan q).
Proof.
  intros w e w' H. unfold transmit in H. destruct (heap w !! q).
  - destruct (lost _); [discriminate|].
    destruct (corrupted _), (delay _); discriminate.
  - injection H as <- _. discriminate.
Qed.
Lemma nk_sync (k : nat -> M E unit) r :
  (forall q, no_keyerror (k q)) -> no_keyerror (sync k r).
Proof. intros Hk. destruct r; [apply Hk | apply nk_ret]. Qed.
End NoKeyError.

Ltac nk_auto :=
  repeat first
    [ apply nk_bind | apply nk_ret | apply nk_get_eng | apply nk_modify
    | apply nk_put_eng | apply nk_new_packet | apply nk_new_timer | apply nk_cancel_timer
    | apply nk_read | apply nk_transmit
    | match goal with
      | |- forall _, no_keyerror _ => intros ?
      | |- no_keyerror (if ?b then _ else _) => destruct b
      | |- no_keyerror (match ?x with _ => _ end) => destruct x
      end ].

Lemma nk_win_start_timer s : no_keyerror (E:=SR) (win_start_timer s).
Proof. unfold win_start_timer. nk_auto. Qed.
Lemma nk_win_stop_timer s : no_keyerror (E:=SR) (win_stop_timer s).
Proof. unfold win_stop_timer. nk_auto. Qed.
Lemma nk_win_receiver_update pk : no_keyerror (E:=SR) (win_receiver_update pk).
Proof. unfold win_receiver_update. nk_auto. Qed.

Lemma nk_sr_send_loop chan (receive : nat -> M SR unit) :
  (forall q, no_keyerror (receive q)) -> forall is, no_keyerror (sr_send_loop chan receive is).
Proof.
  intros Hrec is. induction is as [|i is IH]; cbn [sr_send_loop]; [apply nk_ret|].
  apply nk_bind; [apply nk_get_eng|]. intros e0. apply nk_bind; [|intros; exact IH].
  destruct (_ <? _); [|apply nk_ret]. nk_auto.
  apply nk_sync. exact Hrec.
Qed.

Lemma nk_sr chan fuel :
  no_keyerror (sr_send chan fuel) /\ (forall q, no_keyerror (sr_receive chan fuel q)) /\
  (forall q, no_keyerror (sr_receiver chan fuel q)) /\
  (forall q, no_keyerror (sr_ack_handler chan fuel q)).
Proof.
  induction fuel as [|f (IHs & IHrv & IHr & IHa)].
  { split; [|split; [|split]]; intros; apply nk_raise; discriminate. }
  split; [|split; [|split]]; [cbn [sr_send] | intros q; cbn [sr_receive]
                             | intros q; cbn [sr_receiver] | intros q; cbn [sr_ack_handler]].
  all: nk_auto; auto.
  all: first [apply nk_sr_send_loop; exact IHrv | apply nk_sync; exact IHrv].
Qed.

(** ** Reachable Selective-Repeat states *)

(** The states of a Selective-Repeat engine on the channel [chan]: from
    construction, through calls of [start()], [send()] and [receive()] (on
    any packet object) and through events (a timer expiring, a delayed
    delivery), each of which returns or ends its thread with the [KeyError]
    of [_on_timeout] (a timer stored under a sequence number that has no
    unit in [pending_packets]).  Running out of fuel is not a behaviour of
    the program and does not lead anywhere. *)
Inductive sr_reachable (chan : nat -> decision) : world SR -> Prop :=
  | sr_reach_init total W : sr_reachable chan (init_world (sr_init total W))
  | sr_reach_start f w u w' :
      sr_reachable chan w -> sr_start chan f w = Ok u w' -> sr_reachable chan w'
  | sr_reach_send f w u w' :
      sr_reachable chan w -> sr_send chan f w = Ok u w' -> sr_reachable chan w'
  | sr_reach_receive f q w u w' :
      sr_reachable chan w -> sr_receive chan f q w = Ok u w' -> sr_reachable chan w'
  | sr_reach_step f ev w u w' :
      sr_reachable chan w -> sr_step chan f ev w = Ok u w' -> sr_reachable chan w'
  | sr_reach_keyerror f ev w w' :
      sr_reachable chan w -> sr_step chan f ev w = Raise KeyError w' -> sr_reachable chan w'.

Lemma wp_ok {E A} (m : M E A) Q R w u w' : wp m Q R w -> m w = Ok u w' -> Q u w'.
Proof. unfold wp. intros H E'. rewrite E' in H. exact H. Qed.

Lemma wp_fire_timer_inv W d lo w tid R :
  sr_inv W d lo w -> wp (fire_timer tid) (fun _ => sr_inv W d lo) R w.
Proof.
  intros HI. unfold wp, fire_timer.
  destruct (list_find _ (live_timers w)) as [[i [t a]]|]; [|exact HI].
  destruct HI; constructor; simpl; auto.
  intros t' Ht'. apply list_elem_of_delete_inv in Ht'. auto.
Qed.

Lemma wp_take_delayed_inv W d lo w k R :
  sr_inv W d lo w -> wp (take_delayed k) (fun _ => sr_inv W d lo) R w.
Proof.
  intros HI. unfold wp, take_delayed.
  destruct (delayed w !! k); [|exact HI]. destruct HI; constructor; simpl; auto.
Qed.

Lemma nk_take_delayed {E} k : no_keyerror (E:=E) (take_delayed k).
Proof. intros w e w' H. unfold take_delayed in H. destruct (delayed w !! k); discriminate. Qed.

Lemma sr_step_inv chan f ev W w :
  sr_inv W 0 0 w -> wp (sr_step chan f ev) (fun _ => sr_inv W 0 0) (fun _ => True) w.
Proof.
  intros HI. destruct ev as [tid|k]; unfold sr_step; rewrite wp_bind.
  - eapply wp_mono; [apply (wp_fire_timer_inv W 0 0 w tid (fun _ => True)); exact HI | | auto].
    intros [s|] w1 HI1; [|exact HI1]. apply wp_sr_on_timeout_inv; [lia | exact HI1].
  - eapply wp_mono; [apply (wp_take_delayed_inv W 0 0 w k (fun _ => True)); exact HI | | auto].
    intros r w1 HI1. rewrite wp_sync. destruct r as [q|]; [|exact HI1].
    apply (wp_sr_inv chan f W 0 0); [lia | exact HI1].
Qed.

Lemma sr_step_keyerror_inv chan f ev W w w' :
  sr_inv W 0 0 w -> sr_step chan f ev w = Raise KeyError w' -> sr_inv W 0 0 w'.
Proof.
  intros HI H. destruct (nk_sr chan f) as (_ & Hrecv & _ & _).
  destruct ev as [tid|k]; unfold sr_step in H.
  - unfold bind at 1 in H. destruct (fire_timer tid w) as [a w1|e w1] eqn:Hf.
    2: { unfold fire_timer in Hf. destruct (list_find _ _) as [[? [? ?]]|]; discriminate. }
    pose proof (wp_ok _ _ _ _ _ _ (wp_fire_timer_inv W 0 0 w tid (fun _ => True) HI) Hf) as HI1.
    destruct a as [s|]; [|discriminate].
    unfold sr_on_timeout, bind at 1, get_eng in H.
    destruct (pending_packets (eng w1) !! s) as [p|].
    + exfalso. assert (Hnk : no_keyerror (r <- transmit chan p ;; sync (sr_receive chan f) r ;;;
                                           win_start_timer s))
        by (nk_auto; apply nk_sync; exact Hrecv).
      exact (Hnk _ _ _ H eq_refl).
    + injection H as <-. exact HI1.
  - exfalso. assert (Hnk : no_keyerror (o <- take_delayed k ;; sync (sr_receive chan f) o)).
    { apply nk_bind; [apply nk_take_delayed|]. intros r. apply nk_sync. exact Hrecv. }
    exact (Hnk _ _ _ H eq_refl).
Qed.

Lemma sr_reachable_inv chan w : sr_reachable chan w -> exists W, sr_inv W 0 0 w.
Proof.
  induction 1 as [total W|f w u w' _ [W HI] H|f w u w' _ [W HI] H|f q w u w' _ [W HI] H
                 |f ev w u w' _ [W HI] H|f ev w w' _ [W HI] H].
  - exists W. constructor; simpl.
    + reflexivity.
    + intros k q Hk. rewrite lookup_empty in Hk. discriminate.
    + intros k tid Hk. rewrite lookup_empty in Hk. discriminate.
    + intros _. lia.
    + intros t Ht. inversion Ht.
  - exists W. eapply (wp_ok _ (fun _ => sr_inv W 0 0) (fun _ => True) w u w'); [|exact H]. unfold sr_start. wp_det. wp_det.
    apply (wp_sr_inv chan f W 0 0); [lia|]. apply inv_eng; auto.
  - exists W. eapply (wp_ok _ (fun _ => sr_inv W 0 0) (fun _ => True) w u w'); [|exact H]. apply (wp_sr_inv chan f W 0 0); [lia | exact HI].
  - exists W. eapply (wp_ok _ (fun _ => sr_inv W 0 0) (fun _ => True) w u w'); [|exact H]. apply (wp_sr_inv chan f W 0 0); [lia | exact HI].
  - exists W. eapply (wp_ok _ (fun _ => sr_inv W 0 0) (fun _ => True) w u w'); [|exact H]. apply sr_step_inv. exact HI.
  - exists W. exact (sr_step_keyerror_inv _ _ _ _ _ _ HI H).
Qed.

Lemma sr_reachable_wf chan w s p :
  sr_reachable chan w -> pending_packets (eng w) !! s = Some p -> sr_wf w.
Proof.
  intros Hr Hs. destruct (sr_reachable_inv chan w Hr) as [W HI].
  destruct (inv_pend _ _ _ _ HI _ _ Hs) as (HW & _).
  split; [rewrite (inv_W _ _ _ _ HI); exact HW|]. split; [|split].
  - intros k q Hk. destruct (inv_pend _ _ _ _ HI _ _ Hk) as (_ & Hr' & Hx). split; [lia|exact Hx].
  - intros k tid Hk. destruct (inv_timer _ _ _ _ HI _ _ Hk). lia.
  - exact (inv_live _ _ _ _ HI).
Qed.

(** [_on_timeout(S)] from a well-formed state where [S] is tracked. *)
Lemma sr_on_timeout_frame chan f s p (w : world SR) :
  sr_wf w -> pending_packets (eng w) !! s = Some p ->
  exists pk, heap w !! p = Some pk /\ seq pk = s /\
    sr_timeout_frame w s p pk (world_of (sr_on_timeout chan f s w)) /\
    (forall u w', sr_on_timeout chan f s w = Ok u w' -> sr_rearmed s w').
Proof.
  intros (HW & Hpend & Htim & Hlive) Hs.
  destruct (Hpend _ _ Hs) as [Hsr [pk [Hpk Hseq]]].
  exists pk. split; [exact Hpk|]. split; [exact Hseq|].
  enough (H : wp (sr_on_timeout chan f s)
                 (fun _ w' => sr_timeout_frame w s p pk w' /\ sr_rearmed s w')
                 (sr_timeout_frame w s p pk) w).
  { unfold wp in H. destruct (sr_on_timeout chan f s w) as [u w'|e w']; simpl.
    - destruct H as [H1 H2]. split; [exact H1|]. intros u' w'' E. inversion E; subst. exact H2.
    - split; [exact H|]. intros u' w'' E. discriminate. }
  unfold sr_on_timeout. wp_det. rewrite Hs, wp_bind. apply wp_transmit.
  { intros E. rewrite Hpk in E. discriminate. }
  intros pk0 r w1 Hpk0 He Hh Hl Hn Ht Hr. rewrite Hpk in Hpk0. injection Hpk0 as <-.
  assert (HW1 : 0 < window_size (eng w1)) by (rewrite He; exact HW).
  assert (Hpend1 : forall k q, pending_packets (eng w1) !! k = Some q ->
                     0 <= k < seq_num (eng w1))
    by (intros k q Hk; rewrite He in *; exact (proj1 (Hpend _ _ Hk))).
  assert (Htim1 : forall k tid, timer (eng w1) !! k = Some tid -> k < seq_num (eng w1))
    by (rewrite He; exact Htim).
  assert (Hlive1 : forall t, t ∈ live_timers w1 -> (fst t < next_timer w1)%nat)
    by (rewrite Hl, Hn; exact Hlive).
  assert (Hs1 : pending_packets (eng w1) !! s = Some p) by (rewrite He; exact Hs).
  assert (Hp1 : exists pk', heap w1 !! p = Some pk' /\ seq pk' = s).
  { destruct Hh as [-> | ->]; [exists pk; auto|].
    exists (corrupt pk). rewrite list_lookup_insert_eq by (eapply lookup_lt_Some; eauto).
    auto. }
  assert (Hfin : forall w2, Fr w1 s w2 ->
            wp (win_start_timer s)
               (fun _ w3 => sr_timeout_frame w s p pk w3 /\ sr_rearmed s w3)
               (sr_timeout_frame w s p pk) w2 /\ sr_timeout_frame w s p pk w2).
  { intros w2 HF2.
    pose proof (Fr_timeout_frame w1 s p Hpend1 Htim1 Hp1 w pk w2 He Hpk Hh Hl Ht HF2) as Hfr.
    split; [apply sr_timeout_frame_start_timer|]; exact Hfr. }
  pose proof (Fr_base w1 s Htim1) as HF1.
  rewrite wp_bind, wp_sync. destruct Hr as [-> | ->].
  - cbv beta. apply Hfin. exact HF1.
  - destruct (wp_sr_nested chan w1 s p HW1 Hpend1 Hlive1 Hs1 Hp1 f) as (_ & Hrecv & _ & _).
    eapply wp_mono; [apply Hrecv; [exact HF1 | left; reflexivity] | |].
    + intros u w2 HF2. apply Hfin. exact HF2.
    + intros w2 HF2. apply Hfin. exact HF2.
Qed.

(** C8: in every Selective-Repeat sender state reachable from construction
    in which sequence number [S] is tracked in [pending_packets] (under the
    object [p], holding [pk] with sequence number [S]), [_on_timeout(S)]:
    - first retransmits that stored unit, as it is stored;
    - transmits nothing else that was in flight. Everything else it hands
      to the channel is an object created during the call: the ACK of the
      delivered retransmission, or units that a nested [send] creates;
    - keeps every unit in flight and every timer of another sequence
      number;
    - starts timers only for [S] or for sequence numbers with no unit in
      flight;
    - when it returns, has re-armed the timer of [S]. *)
Theorem sr_timeout_retransmits_only_S chan f s p (w : world SR) :
  sr_reachable chan w -> pending_packets (eng w) !! s = Some p ->
  exists pk, heap w !! p = Some pk /\ seq pk = s /\
    sr_timeout_frame w s p pk (world_of (sr_on_timeout chan f s w)) /\
    (forall u w', sr_on_timeout chan f s w = Ok u w' -> sr_rearmed s w').
Proof.
  intros Hr Hs. apply sr_on_timeout_frame; [|exact Hs].
  exact (sr_reachable_wf chan w s p Hr Hs).
Qed.

(** The hypotheses of C8 hold after [start()] of a Selective-Repeat engine
    with three units and a window of one, on a channel that drops the third
    transmission: sequence number 0 is tracked, under the object with id 2. *)
Lemma sr_timeout_retransmits_only_S_witness :
  sr_reachable (drop_at 2) sr_drop2 /\ pending_packets (eng sr_drop2) !! 0 = Some 2%nat /\
  exists pk, heap sr_drop2 !! 2%nat = Some pk /\ seq pk = 0 /\
    sr_timeout_frame sr_drop2 0 2 pk (world_of (sr_on_timeout (drop_at 2) 100 0 sr_drop2)) /\
    (forall u w', sr_on_timeout (drop_at 2) 100 0 sr_drop2 = Ok u w' -> sr_rearmed 0 w').
Proof.
  assert (Hr : sr_reachable (drop_at 2) sr_drop2).
  { apply (sr_reach_start (drop_at 2) 100 (init_world (sr_init 3 1)) tt sr_drop2).
    - apply sr_reach_init.
    - vm_compute. reflexivity. }
  assert (Hs : pending_packets (eng sr_drop2) !! 0 = Some 2%nat) by (vm_compute; reflexivity).
  split; [exact Hr|]. split; [exact Hs|].
  exact (sr_timeout_retransmits_only_S (drop_at 2) 100 0 2 sr_drop2 Hr Hs).
Defined.

(** ** Invariants of the engine object

    [keeps P m]: started on a world whose engine satisfies [P], [m] ends,
    returning or raising, on a world whose engine satisfies [P]. *)
Definition keeps {E A} (P : E -> Prop) (m : M E A) : Prop :=
  forall w, P (eng w) -> wp m (fun _ w' => P (eng w')) (fun w' => P (eng w')) w.

Section Keeps.
Context {E : Type} (P : E -> Prop).

Lemma keeps_bind {A B} (m : M E A) (k : A -> M E B) :
  keeps P m -> (forall a, keeps P (k a)) -> keeps P (bind m k).
Proof.
  intros Hm Hk w HP. rewrite wp_bind. eapply wp_mono; [apply Hm, HP | | auto].
  intros a w' HP'. apply Hk, HP'.
Qed.

Lemma keeps_ret {A} (a : A) : keeps P (ret a).
Proof. intros w HP. exact HP. Qed.
Lemma keeps_raise {A} e : keeps (A:=A) P (raise e).
Proof. intros w HP. exact HP. Qed.
Lemma keeps_get_eng : keeps P get_eng.
Proof. intros w HP. exact HP. Qed.
Lemma keeps_log a : keeps P (modify (log a)).
Proof. intros w HP. exact HP. Qed.
Lemma keeps_read q : keeps P (read q).
Proof. intros w HP. rewrite wp_read. destruct (heap w !! q); exact HP. Qed.
Lemma keeps_new_packet sq pl t : keeps P (new_packet sq pl t).
Proof. intros w HP. exact HP. Qed.
Lemma keeps_new_timer a : keeps P (new_timer a).
Proof. intros w HP. exact HP. Qed.
Lemma keeps_cancel_timer tid a : keeps P (cancel_timer tid a).
Proof. intros w HP. exact HP. Qed.
Lemma keeps_transmit chan q : keeps P (transmit chan q).
Proof.
  intros w HP. apply wp_transmit; [intros _; exact HP|].
  intros pk r w' _ He _ _ _ _ _. rewrite He. exact HP.
Qed.
Lemma keeps_sync (k : nat -> M E unit) r : (forall q, keeps P (k q)) -> keeps P (sync k r).
Proof. intros Hk. destruct r; [apply Hk | apply keeps_ret]. Qed.
Lemma keeps_fire_timer tid : keeps P (fire_timer tid).
Proof.
  intros w HP. unfold wp, fire_timer.
  destruct (list_find _ _) as [[i [t a]]|]; exact HP.
Qed.
Lemma keeps_take_delayed k : keeps P (take_delayed k).
Proof. intros w HP. unfold wp, take_delayed. destruct (delayed w !! k); exact HP. Qed.

(** [e <- get_eng ;; put_eng (f e)]: an update of the engine. *)
Lemma keeps_update (f : E -> E) :
  (forall e, P e -> P (f e)) -> keeps P (e <- get_eng ;; put_eng (f e)).
Proof. intros Hf w HP. apply Hf, HP. Qed.

Lemma keeps_update_bind {B} (f : E -> E) (k : M E B) :
  (forall e, P e -> P (f e)) -> keeps P k -> keeps P (e <- get_eng ;; put_eng (f e) ;;; k).
Proof. intros Hf Hk w HP. unfold wp at 1. cbn. apply Hk, Hf, HP. Qed.

(** [send]'s first test: [put_eng (f e)] when the guard holds. *)
Lemma keeps_get_if (c : E -> bool) (f : E -> E) (k : E -> M E unit) :
  (forall e, P e -> P (f e)) -> (forall e, keeps P (k e)) ->
  keeps P (e <- get_eng ;; if c e then put_eng (f e) else k e).
Proof.
  intros Hf Hk w HP. rewrite wp_bind, wp_get_eng.
  destruct (c (eng w)); [apply Hf, HP | apply Hk, HP].
Qed.

Lemma keeps_exec (m : M E unit) w : keeps P m -> P (eng w) -> P (eng (exec m w)).
Proof. intros Hm HP. specialize (Hm w HP). unfold wp, exec in *. destruct (m w); exact Hm. Qed.
End Keeps.

(** One step of a [keeps] proof, by the shape of the program. *)
Ltac keeps_step :=
  lazymatch goal with
  | |- keeps _ (bind get_eng (fun _ => bind (put_eng _) (fun _ => _))) =>
      apply keeps_update_bind; [intros ? ?|]
  | |- keeps _ (bind get_eng (fun _ => put_eng _)) => apply keeps_update; intros ? ?
  | |- keeps _ (bind get_eng (fun _ => if _ then put_eng _ else _)) =>
      apply keeps_get_if; [intros ? ?|intros ?]
  | |- keeps _ (bind _ _) => apply keeps_bind; [|intros ?]
  | |- keeps _ (ret _) => apply keeps_ret
  | |- keeps _ (raise _) => apply keeps_raise
  | |- keeps _ get_eng => apply keeps_get_eng
  | |- keeps _ (modify (log _)) => apply keeps_log
  | |- keeps _ (read _) => apply keeps_read
  | |- keeps _ (new_packet _ _ _) => apply keeps_new_packet
  | |- keeps _ (new_timer _) => apply keeps_new_timer
  | |- keeps _ (cancel_timer _ _) => apply keeps_cancel_timer
  | |- keeps _ (transmit _ _) => apply keeps_transmit
  | |- keeps _ (sync _ _) => apply keeps_sync; intros ?
  | |- keeps _ (fire_timer _) => apply keeps_fire_timer
  | |- keeps _ (take_delayed _) => apply keeps_take_delayed
  | |- keeps _ (if ?c then _ else _) => destruct c
  | |- keeps _ (match ?x with _ => _ end) => destruct x
  end.

(** ** Stop-and-Wait: what every handler keeps *)

(** [_receiver] accepting a unit with payload [v]: stored at
    [buffer[received_count]], the count incremented, the bit flipped. *)
Definition sw_accept (v : option string) (e : SW) : SW :=
  let e1 := sw_set_buffer (<[sw_received_count e := v]> (sw_buffer e))
              (sw_received_count e + 1) e in
  sw_set_seq_num (1 - sw_seq_num e1) e1.

Section SWKeeps.
Variable chan : nat -> decision.
Variable P : SW -> Prop.
Hypothesis H_running : forall e b, P e -> P (sw_set_running b e).
Hypothesis H_pending : forall e p, P e -> P (sw_set_pending p e).
Hypothesis H_timer : forall e t, P e -> P (sw_set_timer t e).
Hypothesis H_sent : forall e n, P e -> P (sw_set_sent_count n e).
Hypothesis H_accept : forall e v, P e -> P (sw_accept v e).

Lemma keeps_sw_receiver_update pk : keeps P (sw_receiver_update pk).
Proof.
  intros w HP. unfold sw_receiver_update. wp_det.
  destruct (is_corrupt pk); [rewrite wp_new_packet; exact HP|].
  destruct (seq pk =? sw_seq_num (eng w)); [|rewrite wp_new_packet; exact HP].
  wp_det. wp_det. wp_det. wp_det. rewrite wp_ret. exact (H_accept _ _ HP).
Qed.

Lemma keeps_sw_start_timer : keeps P sw_start_timer.
Proof. unfold sw_start_timer. repeat keeps_step. auto. Qed.

Lemma keeps_sw_stop_timer : keeps P sw_stop_timer.
Proof. unfold sw_stop_timer. repeat keeps_step. auto. Qed.

Lemma keeps_sw fuel :
  keeps P (sw_send chan fuel) /\ (forall q, keeps P (sw_receive chan fuel q)) /\
  (forall q, keeps P (sw_receiver chan fuel q)) /\ (forall q, keeps P (sw_ack_handler chan fuel q)).
Proof.
  induction fuel as [|f (IHs & IHrv & IHr & IHa)].
  { repeat split; intros; apply keeps_raise. }
  split; [|split; [|split]]; [cbn [sw_send] | intros q; cbn [sw_receive]
    | intros q; cbn [sw_receiver] | intros q; cbn [sw_ack_handler]];
    repeat first [ keeps_step | apply keeps_sw_receiver_update | apply keeps_sw_start_timer
                 | apply keeps_sw_stop_timer | apply IHs | apply IHrv | apply IHr | apply IHa
                 | solve [auto] ].
Qed.

Lemma keeps_sw_step f ev : keeps P (sw_step chan f ev).
Proof.
  destruct (keeps_sw f) as (_ & Hrv & _).
  destruct ev; cbn [sw_step]; unfold sw_on_timeout;
    repeat first [ keeps_step | apply keeps_sw_start_timer | apply Hrv ].
Qed.

Lemma keeps_sw_run f evs w : P (eng w) -> P (eng (sw_run chan f evs w)).
Proof.
  unfold sw_run. revert w. induction evs as [|ev evs IH]; intros w HP; [exact HP|].
  cbn [fold_left]. apply IH. apply (keeps_exec P (sw_step chan f ev) w); [apply keeps_sw_step | exact HP].
Qed.

Lemma keeps_sw_started f total :
  P (sw_init total) -> P (eng (started (sw_start chan f) (sw_init total))).
Proof.
  intros HP. unfold started. apply keeps_exec; [|exact HP]. unfold sw_start.
  apply keeps_update_bind; [auto|]. apply keeps_sw.
Qed.
End SWKeeps.

(** ** Go-Back-N and Selective-Repeat: what every handler keeps *)

(** [_receiver] accepting a unit with payload [v]: stored at
    [buffer[received_count]], the count and [ack_received] incremented. *)
Definition win_accept {Pe} (v : option string) (e : Win Pe) : Win Pe :=
  let e1 := set_buffer (<[received_count e := v]> (buffer e)) (received_count e + 1) e in
  set_ack_received (ack_received e1 + 1) e1.

Section WinKeeps.
Context {Pe : Type} (P : Win Pe -> Prop).
Hypothesis H_running : forall e b, P e -> P (set_running b e).
Hypothesis H_pending : forall e pp, P e -> P (set_pending pp e).
Hypothesis H_timer : forall e t, P e -> P (set_timer t e).
Hypothesis H_sent : forall e n, P e -> P (set_sent_count n e).
Hypothesis H_seq : forall e, P e -> P (set_seq_num (seq_num e + window_size e) e).
Hypothesis H_accept : forall e v, P e -> P (win_accept v e).

Lemma keeps_win_receiver_update pk : keeps P (win_receiver_update pk).
Proof.
  intros w HP. unfold win_receiver_update. wp_det.
  destruct (is_corrupt pk); [rewrite wp_new_packet; exact HP|].
  destruct (seq pk =? ack_received (eng w)); [|rewrite wp_new_packet; exact HP].
  wp_det. wp_det. wp_det. wp_det. rewrite wp_ret. exact (H_accept _ _ HP).
Qed.

Lemma keeps_win_start_timer s : keeps P (win_start_timer s).
Proof. unfold win_start_timer. repeat keeps_step. auto. Qed.

Lemma keeps_win_stop_timer s : keeps P (win_stop_timer s).
Proof. unfold win_stop_timer. repeat keeps_step. auto. Qed.
End WinKeeps.

Ltac keeps_win :=
  first [ keeps_step | apply keeps_win_receiver_update | apply keeps_win_start_timer
        | apply keeps_win_stop_timer | solve [auto] ].

Section GBNKeeps.
Variable chan : nat -> decision.
Variable P : GBN -> Prop.
Hypothesis H_running : forall e b, P e -> P (set_running b e).
Hypothesis H_pending : forall e pp, P e -> P (set_pending pp e).
Hypothesis H_timer : forall e t, P e -> P (set_timer t e).
Hypothesis H_sent : forall e n, P e -> P (set_sent_count n e).
Hypothesis H_seq : forall e, P e -> P (set_seq_num (seq_num e + window_size e) e).
Hypothesis H_accept : forall e v, P e -> P (win_accept v e).

Lemma keeps_gbn_send_loop (receive : nat -> M GBN unit) is :
  (forall q, keeps P (receive q)) -> keeps P (gbn_send_loop chan receive is).
Proof.
  intros Hr. induction is as [|i is IH]; cbn [gbn_send_loop]; repeat (keeps_win || apply Hr).
Qed.

Lemma keeps_gbn fuel :
  keeps P (gbn_send chan fuel) /\ (forall q, keeps P (gbn_receive chan fuel q)) /\
  (forall q, keeps P (gbn_receiver chan fuel q)) /\ (forall q, keeps P (gbn_ack_handler chan fuel q)).
Proof.
  induction fuel as [|f (IHs & IHrv & IHr & IHa)].
  { repeat split; intros; apply keeps_raise. }
  split; [|split; [|split]]; [cbn [gbn_send] | intros q; cbn [gbn_receive]
    | intros q; cbn [gbn_receiver] | intros q; cbn [gbn_ack_handler]];
    repeat first [ keeps_win | apply keeps_gbn_send_loop | apply IHs | apply IHrv | apply IHr
                 | apply IHa ].
Qed.

Lemma keeps_gbn_on_timeout f s : keeps P (gbn_on_timeout chan f s).
Proof.
  destruct (keeps_gbn f) as (_ & Hrv & _).
  unfold gbn_on_timeout. apply keeps_bind; [apply keeps_get_eng|]. intros e.
  induction (py_range _ _) as [|i is IH]; repeat (keeps_win || apply Hrv || apply IH).
Qed.

Lemma keeps_gbn_run f evs w : P (eng w) -> P (eng (gbn_run chan f evs w)).
Proof.
  destruct (keeps_gbn f) as (_ & Hrv & _).
  unfold gbn_run. revert w. induction evs as [|ev evs IH]; intros w HP; [exact HP|].
  cbn [fold_left]. apply IH. apply (keeps_exec P (gbn_step chan f ev) w); [|exact HP].
  destruct ev; cbn [gbn_step]; repeat (keeps_win || apply Hrv || apply keeps_gbn_on_timeout).
Qed.

Lemma keeps_gbn_started f total ws :
  P (gbn_init total ws) -> P (eng (started (gbn_start chan f) (gbn_init total ws))).
Proof.
  intros HP. unfold started. apply keeps_exec; [|exact HP]. unfold gbn_start.
  apply keeps_update_bind; [auto|]. apply keeps_gbn.
Qed.
End GBNKeeps.

Section SRKeeps.
Variable chan : nat -> decision.
Variable P : SR -> Prop.
Hypothesis H_running : forall e b, P e -> P (set_running b e).
Hypothesis H_pending : forall e pp, P e -> P (set_pending pp e).
Hypothesis H_timer : forall e t, P e -> P (set_timer t e).
Hypothesis H_sent : forall e n, P e -> P (set_sent_count n e).
Hypothesis H_seq : forall e, P e -> P (set_seq_num (seq_num e + window_size e) e).
Hypothesis H_accept : forall e v, P e -> P (win_accept v e).

Lemma keeps_sr_send_loop (receive : nat -> M SR unit) is :
  (forall q, keeps P (receive q)) -> keeps P (sr_send_loop chan receive is).
Proof.
  intros Hr. induction is as [|i is IH]; cbn [sr_send_loop]; repeat (keeps_win || apply Hr).
Qed.

Lemma keeps_sr fuel :
  keeps P (sr_send chan fuel) /\ (forall q, keeps P (sr_receive chan fuel q)) /\
  (forall q, keeps P (sr_receiver chan fuel q)) /\ (forall q, keeps P (sr_ack_handler chan fuel q)).
Proof.
  induction fuel as [|f (IHs & IHrv & IHr & IHa)].
  { repeat split; intros; apply keeps_raise. }
  split; [|split; [|split]]; [cbn [sr_send] | intros q; cbn [sr_receive]
    | intros q; cbn [sr_receiver] | intros q; cbn [sr_ack_handler]];
    repeat first [ keeps_win | apply keeps_sr_send_loop | apply IHs | apply IHrv | apply IHr
                 | apply IHa ].
Qed.

Lemma keeps_sr_run f evs w : P (eng w) -> P (eng (sr_run chan f evs w)).
Proof.
  destruct (keeps_sr f) as (_ & Hrv & _).
  unfold sr_run. revert w. induction evs as [|ev evs IH]; intros w HP; [exact HP|].
  cbn [fold_left]. apply IH. apply (keeps_exec P (sr_step chan f ev) w); [|exact HP].
  destruct ev; cbn [sr_step]; unfold sr_on_timeout; repeat (keeps_win || apply Hrv).
Qed.

Lemma keeps_sr_started f total ws :
  P (sr_init total ws) -> P (eng (started (sr_start chan f) (sr_init total ws))).
Proof.
  intros HP. unfold started. apply keeps_exec; [|exact HP]. unfold sr_start.
  apply keeps_update_bind; [auto|]. apply keeps_sr.
Qed.
End SRKeeps.

(** The keys [0 .. n-1] in increasing order. *)
Definition key_range (n : Z) : list Z := map Z.of_nat (List.seq 0 (Z.to_nat n)).

Lemma fmap_map_eq {A B} (f : A -> B) (l : list A) : f <$> l = map f l.
Proof. induction l as [|x l IH]; [reflexivity|]. cbn. rewrite <- IH. reflexivity. Qed.

Lemma key_range_sorted n : Sorted Z.le (key_range n).
Proof.
  unfold key_range. generalize 0%nat as s. induction (Z.to_nat n) as [|m IH]; intros s.
  - constructor.
  - simpl. constructor; [apply IH|]. destruct m; simpl; constructor; lia.
Qed.

Lemma elem_of_key_range n k : k ∈ key_range n <-> 0 <= k < n.
Proof.
  unfold key_range. rewrite <- fmap_map_eq, list_elem_of_fmap. split.
  - intros (i & -> & Hi). apply list_elem_of_In, in_seq in Hi. lia.
  - intros Hk. exists (Z.to_nat k). split; [lia|]. apply list_elem_of_In, in_seq. lia.
Qed.

Lemma NoDup_key_range n : NoDup (key_range n).
Proof.
  unfold key_range. rewrite <- fmap_map_eq. apply NoDup_fmap_2; [intros x y; lia|]. apply (proj2 (NoDup_ListNoDup _)), seq_NoDup.
Qed.

Lemma omap_lookup_all {A B} (f : A -> option B) (l : list A) :
  (forall x, x ∈ l -> is_Some (f x)) ->
  length (omap f l) = length l /\ (forall i x, l !! i = Some x -> omap f l !! i = f x).
Proof.
  induction l as [|x l IH]; intros Hall; [split; [reflexivity|intros i x H; rewrite lookup_nil in H; discriminate]|].
  destruct (Hall x (proj2 (elem_of_cons _ _ _) (or_introl eq_refl))) as [y Hy].
  destruct IH as [IHl IHi].
  { intros z Hz. apply Hall, elem_of_cons. right. exact Hz. }
  cbn [omap list_omap]. rewrite Hy. split.
  - cbn [length]. rewrite IHl. reflexivity.
  - intros [|i] z Hz; cbn in Hz |- *; [congruence|]. auto.
Qed.

(** [get_data] on a buffer whose keys are exactly [0 .. n-1]. *)
Lemma get_data_range (b : gmap Z (option string)) n :
  (forall k, is_Some (b !! k) <-> 0 <= k < n) ->
  length (get_data b) = Z.to_nat n /\
  (forall i, (i < Z.to_nat n)%nat -> get_data b !! i = b !! Z.of_nat i).
Proof.
  intros Hdom.
  assert (Hs : merge_sort Z.le (map fst (map_to_list b)) = key_range n).
  { apply (Sorted_unique Z.le); [apply Sorted_merge_sort; intros x y; lia | apply key_range_sorted |].
    etransitivity; [apply merge_sort_Permutation|]. apply NoDup_Permutation.
    - rewrite <- fmap_map_eq. apply NoDup_fst_map_to_list.
    - apply NoDup_key_range.
    - intros k. rewrite elem_of_key_range, <- Hdom.
      rewrite <- fmap_map_eq, list_elem_of_fmap. split.
      + intros ([k' v] & -> & Hkv). apply elem_of_map_to_list in Hkv. simpl. eauto.
      + intros [v Hv]. exists (k, v). split; [reflexivity|]. by apply elem_of_map_to_list. }
  unfold get_data. rewrite Hs.
  destruct (omap_lookup_all (fun k => b !! k) (key_range n)) as [Hl Hi].
  { intros k Hk. apply Hdom, elem_of_key_range, Hk. }
  split.
  - rewrite Hl. unfold key_range. rewrite length_map, length_seq. reflexivity.
  - intros i Hlt. apply Hi. unfold key_range. rewrite list_lookup_fmap.
    rewrite lookup_seq_lt by exact Hlt. reflexivity.
Qed.

(** ** The receiver's buffer *)

(** The keys of a buffer are [0 .. n-1]. *)
Definition keys_below (b : gmap Z (option string)) (n : Z) : Prop :=
  forall k, is_Some (b !! k) <-> 0 <= k < n.

Lemma keys_below_insert b n v :
  0 <= n -> keys_below b n -> keys_below (<[n := v]> b) (n + 1).
Proof.
  intros Hn Hb k. destruct (decide (k = n)) as [->|Hne].
  - rewrite lookup_insert_eq. split; [lia | eauto].
  - rewrite lookup_insert_ne by congruence. rewrite (Hb k). lia.
Qed.

Lemma subseteq_insert_fresh (b0 b : gmap Z (option string)) n v :
  b0 ⊆ b -> b !! n = None -> b0 ⊆ <[n := v]> b.
Proof.
  intros Hsub Hn. apply map_subseteq_spec. intros i x Hi.
  destruct (decide (i = n)) as [->|Hne].
  - rewrite (lookup_weaken b0 b n x Hi Hsub) in Hn. discriminate.
  - rewrite lookup_insert_ne by congruence. eapply lookup_weaken; eauto.
Qed.

Lemma keys_below_fresh b n : keys_below b n -> b !! n = None.
Proof.
  intros Hb. destruct (b !! n) eqn:E; [|reflexivity].
  assert (H : is_Some (b !! n)) by eauto. apply Hb in H. lia.
Qed.

(** Stop-and-Wait: the received units fill [buffer[0 .. received_count-1]]
    and the expected bit is the parity of their number; [b0] is a part of
    the buffer seen earlier. *)
Definition sw_recv_inv (b0 : gmap Z (option string)) (e : SW) : Prop :=
  0 <= sw_received_count e /\ sw_seq_num e = sw_received_count e mod 2 /\
  keys_below (sw_buffer e) (sw_received_count e) /\ b0 ⊆ sw_buffer e.

Lemma sw_recv_inv_accept b0 e v : sw_recv_inv b0 e -> sw_recv_inv b0 (sw_accept v e).
Proof.
  destruct e as [t sq tm b sc rc pp r]. intros (Hn & Hs & Hk & Hsub).
  unfold sw_accept, sw_recv_inv; cbn in *. split; [lia|]. split.
  - rewrite Hs, Z.add_mod by lia. pose proof (Z.mod_pos_bound rc 2 ltac:(lia)).
    destruct (Z.eq_dec (rc mod 2) 0) as [->|H1]; [reflexivity|].
    replace (rc mod 2) with 1 by lia. reflexivity.
  - split; [apply keys_below_insert; auto|].
    apply subseteq_insert_fresh; [exact Hsub | apply keys_below_fresh; exact Hk].
Qed.

Lemma sw_recv_inv_run chan f b0 evs w :
  sw_recv_inv b0 (eng w) -> sw_recv_inv b0 (eng (sw_run chan f evs w)).
Proof.
  apply keeps_sw_run; try (intros ? ? H; exact H). apply sw_recv_inv_accept.
Qed.

Lemma sw_recv_inv_started chan f total :
  sw_recv_inv ∅ (eng (started (sw_start chan f) (sw_init total))).
Proof.
  apply keeps_sw_started; try (intros ? ? H; exact H); [apply sw_recv_inv_accept|].
  split; [reflexivity|]. split; [reflexivity|]. split; [|apply map_empty_subseteq].
  intros k. cbn. rewrite lookup_empty. split; [intros [v Hv]; discriminate | lia].
Qed.

(** Go-Back-N and Selective-Repeat: the received units fill
    [buffer[0 .. received_count-1]] and [ack_received] counts them; [b0]
    is a part of the buffer seen earlier. *)
Definition win_recv_inv {Pe} (b0 : gmap Z (option string)) (e : Win Pe) : Prop :=
  0 <= received_count e /\ ack_received e = received_count e /\
  keys_below (buffer e) (received_count e) /\ b0 ⊆ buffer e.

Lemma win_recv_inv_accept {Pe} b0 (e : Win Pe) v :
  win_recv_inv b0 e -> win_recv_inv b0 (win_accept v e).
Proof.
  destruct e. intros (Hn & Ha & Hk & Hsub). unfold win_accept, win_recv_inv; cbn in *.
  split; [lia|]. split; [lia|]. split; [apply keys_below_insert; auto|].
  apply subseteq_insert_fresh; [exact Hsub | apply keys_below_fresh; exact Hk].
Qed.

Lemma win_recv_inv_init {Pe} (pp : Pe) total ws : win_recv_inv ∅ (win_init pp total ws).
Proof.
  split; [reflexivity|]. split; [reflexivity|]. split; [|apply map_empty_subseteq].
  intros k. cbn. rewrite lookup_empty. split; [intros [v Hv]; discriminate | lia].
Qed.

Lemma gbn_recv_inv_run chan f b0 evs w :
  win_recv_inv b0 (eng w) -> win_recv_inv b0 (eng (gbn_run chan f evs w)).
Proof.
  apply keeps_gbn_run; try (intros ? ? H; exact H); [intros ? H; exact H|].
  apply win_recv_inv_accept.
Qed.

Lemma gbn_recv_inv_started chan f total ws :
  win_recv_inv ∅ (eng (started (gbn_start chan f) (gbn_init total ws))).
Proof.
  apply keeps_gbn_started; try (intros ? ? H; exact H); [intros ? H; exact H| |].
  - apply win_recv_inv_accept.
  - apply win_recv_inv_init.
Qed.

Lemma sr_recv_inv_run chan f b0 evs w :
  win_recv_inv b0 (eng w) -> win_recv_inv b0 (eng (sr_run chan f evs w)).
Proof.
  apply keeps_sr_run; try (intros ? ? H; exact H); [intros ? H; exact H|].
  apply win_recv_inv_accept.
Qed.

Lemma sr_recv_inv_started chan f total ws :
  win_recv_inv ∅ (eng (started (sr_start chan f) (sr_init total ws))).
Proof.
  apply keeps_sr_started; try (intros ? ? H; exact H); [intros ? H; exact H| |].
  - apply win_recv_inv_accept.
  - apply win_recv_inv_init.
Qed.

(** X1.  Stop-and-Wait, after [start()] and any run of timer expiries and
    delayed deliveries, on any channel: the keys of [buffer] are exactly
    [0 .. received_count-1], the expected bit [seq_num] is the parity of
    [received_count], and [get_data()] returns [received_count] payloads,
    the [i]-th being [buffer[i]]. *)
Theorem sw_receiver_buffer_shape chan f total evs :
  let e := eng (sw_run chan f evs (started (sw_start chan f) (sw_init total))) in
  0 <= sw_received_count e /\ sw_seq_num e = sw_received_count e mod 2 /\
  (forall k, is_Some (sw_buffer e !! k) <-> 0 <= k < sw_received_count e) /\
  length (get_data (sw_buffer e)) = Z.to_nat (sw_received_count e) /\
  (forall i, (i < Z.to_nat (sw_received_count e))%nat ->
     get_data (sw_buffer e) !! i = sw_buffer e !! Z.of_nat i).
Proof.
  intros e. destruct (sw_recv_inv_run chan f ∅ evs _ (sw_recv_inv_started chan f total))
    as (Hn & Hs & Hk & _).
  destruct (get_data_range _ _ Hk) as [Hl Hi]. auto.
Qed.

(** X2.  The same for Go-Back-N, where [ack_received] equals
    [received_count]. *)
Theorem gbn_receiver_buffer_shape chan f total ws evs :
  let e := eng (gbn_run chan f evs (started (gbn_start chan f) (gbn_init total ws))) in
  0 <= received_count e /\ ack_received e = received_count e /\
  (forall k, is_Some (buffer e !! k) <-> 0 <= k < received_count e) /\
  length (get_data (buffer e)) = Z.to_nat (received_count e) /\
  (forall i, (i < Z.to_nat (received_count e))%nat ->
     get_data (buffer e) !! i = buffer e !! Z.of_nat i).
Proof.
  intros e. destruct (gbn_recv_inv_run chan f ∅ evs _ (gbn_recv_inv_started chan f total ws))
    as (Hn & Hs & Hk & _).
  destruct (get_data_range _ _ Hk) as [Hl Hi]. auto.
Qed.

(** X3.  The same for Selective-Repeat. *)
Theorem sr_receiver_buffer_shape chan f total ws evs :
  let e := eng (sr_run chan f evs (started (sr_start chan f) (sr_init total ws))) in
  0 <= received_count e /\ ack_received e = received_count e /\
  (forall k, is_Some (buffer e !! k) <-> 0 <= k < received_count e) /\
  length (get_data (buffer e)) = Z.to_nat (received_count e) /\
  (forall i, (i < Z.to_nat (received_count e))%nat ->
     get_data (buffer e) !! i = buffer e !! Z.of_nat i).
Proof.
  intros e. destruct (sr_recv_inv_run chan f ∅ evs _ (sr_recv_inv_started chan f total ws))
    as (Hn & Hs & Hk & _).
  destruct (get_data_range _ _ Hk) as [Hl Hi]. auto.
Qed.

(** X4.  Delivered data is never overwritten or lost: in each engine, an
    entry of [buffer] present after [start()] and the events [evs1] is still
    there, with the same payload, after any further events [evs2]. *)
Theorem buffer_entries_persist chan f total ws evs1 evs2 :
  (let w1 := sw_run chan f evs1 (started (sw_start chan f) (sw_init total)) in
   sw_buffer (eng w1) ⊆ sw_buffer (eng (sw_run chan f evs2 w1))) /\
  (let w1 := gbn_run chan f evs1 (started (gbn_start chan f) (gbn_init total ws)) in
   buffer (eng w1) ⊆ buffer (eng (gbn_run chan f evs2 w1))) /\
  (let w1 := sr_run chan f evs1 (started (sr_start chan f) (sr_init total ws)) in
   buffer (eng w1) ⊆ buffer (eng (sr_run chan f evs2 w1))).
Proof.
  split; [|split]; intros w1.
  - destruct (sw_recv_inv_run chan f ∅ evs1 _ (sw_recv_inv_started chan f total))
      as (Hn & Hs & Hk & _).
    assert (H : sw_recv_inv (sw_buffer (eng w1)) (eng w1)).
    { split; [exact Hn|]. split; [exact Hs|]. split; [exact Hk|reflexivity]. }
    exact (proj2 (proj2 (proj2 (sw_recv_inv_run chan f _ evs2 w1 H)))).
  - destruct (gbn_recv_inv_run chan f ∅ evs1 _ (gbn_recv_inv_started chan f total ws))
      as (Hn & Hs & Hk & _).
    assert (H : win_recv_inv (buffer (eng w1)) (eng w1)).
    { split; [exact Hn|]. split; [exact Hs|]. split; [exact Hk|reflexivity]. }
    exact (proj2 (proj2 (proj2 (gbn_recv_inv_run chan f _ evs2 w1 H)))).
  - destruct (sr_recv_inv_run chan f ∅ evs1 _ (sr_recv_inv_started chan f total ws))
      as (Hn & Hs & Hk & _).
    assert (H : win_recv_inv (buffer (eng w1)) (eng w1)).
    { split; [exact Hn|]. split; [exact Hs|]. split; [exact Hk|reflexivity]. }
    exact (proj2 (proj2 (proj2 (sr_recv_inv_run chan f _ evs2 w1 H)))).
Qed.









Lemma corrupt_iter_fields k p :
  0 <= checksum p < 256 ->
  Nat.iter k corrupt p = set_checksum ((checksum p + Z.of_nat k) mod 256) p.
Proof.
  intros Hc. induction k as [|k IH].
  - destruct p; unfold set_checksum; cbn in *. rewrite Z.add_0_r, Z.mod_small by lia. reflexivity.
  - change (Nat.iter (S k) corrupt p) with (corrupt (Nat.iter k corrupt p)). rewrite IH. unfold corrupt, set_checksum. cbn. f_equal.
    rewrite Zplus_mod_idemp_l. f_equal. lia.
Qed.

(** X8.  The channel's corruption step [checksum = (checksum + 1) % 256]
    applied [k] times to a packet built by [Packet(...)] leaves a packet
    that [is_corrupt()] reports corrupt exactly when [k] is not a multiple
    of 256. *)
Theorem corrupt_iter_detected sq pl t k :
  is_corrupt (Nat.iter k corrupt (mkPacket sq pl t)) = negb (Nat.eqb (k mod 256) 0).
Proof.
  rewrite corrupt_iter_fields by apply compute_checksum_range.
  unfold is_corrupt, set_checksum. cbn [checksum seq payload type mkPacket].
  set (c := _compute_checksum sq pl t). pose proof (compute_checksum_range sq pl t) as Hc.
  fold c in Hc. f_equal.
  destruct (Nat.eqb_spec (k mod 256) 0) as [H0|H0].
  - apply Z.eqb_eq. apply Nat.Div0.mod_divides in H0 as [m ->].
    rewrite Nat2Z.inj_mul. replace (c + Z.of_nat 256 * Z.of_nat m) with (c + Z.of_nat m * 256) by lia.
    rewrite Z_mod_plus_full. apply Z.mod_small. lia.
  - apply Z.eqb_neq. intros Heq. apply H0.
    rewrite Zplus_mod, (Z.mod_small c) in Heq by lia.
    assert (Hk : Z.of_nat k mod 256 = 0).
    { pose proof (Z.mod_pos_bound (Z.of_nat k) 256 ltac:(lia)).
      destruct (Z_lt_le_dec (c + Z.of_nat k mod 256) 256).
      - rewrite Z.mod_small in Heq by lia. lia.
      - rewrite <- (Z_mod_plus_full _ (-1)) in Heq. rewrite Z.mod_small in Heq by lia. lia. }
    apply Nat2Z.inj. rewrite Nat2Z.inj_mod. exact Hk.
Qed.

(** X9.  [_on_timeout(S)] of Selective-Repeat raises [KeyError] and changes
    nothing when [S] is not a key of [pending_packets]; and such a timer is
    live right after [start()] of [SelectiveRepeatRDT(total=2,
    window_size=1)] on a lossless channel: [send] stores the timer of the
    second unit under sequence number 1, but that unit was stored in
    [pending_packets] under 0, so the expiry of that timer raises
    [KeyError]. *)
Theorem sr_stale_timer_keyerror :
  (forall chan f s (w : world SR), pending_packets (eng w) !! s = None ->
     sr_on_timeout chan f s w = Raise KeyError w) /\
  (let w := started (sr_start lossless 100) (sr_init 2 1) in
   (1%nat, 1) ∈ live_timers w /\ timer (eng w) !! 1 = Some 1%nat /\
   pending_packets (eng w) !! 1 = None /\
   exists w', sr_step lossless 100 (EvTimer 1) w = Raise KeyError w' /\ eng w' = eng w).
Proof.
  split.
  - intros chan f s w Hs. unfold sr_on_timeout, bind, get_eng. rewrite Hs. reflexivity.
  - vm_compute. split; [apply list_elem_of_In; simpl; auto|]. split; [reflexivity|]. split; [reflexivity|].
    eexists. split; reflexivity.
Qed.

(** The payload of the [i]-th unit: [f"DATA_{i}"]. *)
Definition data_payload (i : Z) : option string := Some ("DATA_" +:+ pretty i).

(** [buffer[i] = "DATA_i"] for [i < k]. *)
Fixpoint delivered (k : nat) : gmap Z (option string) :=
  match k with
  | O => ∅
  | S k' => <[Z.of_nat k' := data_payload (Z.of_nat k')]> (delivered k')
  end.






Section SWLossless.
Variable N : nat.

(** Before [send] with [k] units acknowledged and received. *)
Definition sw_at (k : nat) (e : SW) : Prop :=
  sw_total_packets e = Z.of_nat N /\ sw_sent_count e = Z.of_nat k /\
  sw_seq_num e = Z.of_nat k mod 2 /\ sw_received_count e = Z.of_nat k /\
  sw_buffer e = delivered k.


Lemma sw_at_timer k e t : sw_at k e -> sw_at k (sw_set_timer t e).
Proof. intros H. exact H. Qed.


End SWLossless.




(** ** Witnesses of the properties above *)




Lemma sr_stale_timer_keyerror_witness :
  let w := started (sr_start lossless 100) (sr_init 2 1) in
  pending_packets (eng w) !! 1 = None /\ sr_on_timeout lossless 100 1 w = Raise KeyError w.
Proof.
  intros w. assert (H : pending_packets (eng w) !! 1 = None) by (vm_compute; reflexivity).
  split; [exact H|]. exact (proj1 sr_stale_timer_keyerror lossless 100%nat 1 w H).
Defined.

